(** * dride-image-flasher: the flash controller and the image selector

    A shallow embedding of the two services of the GUI that sequence a
    flash session:

    - [ImageSelectorService] (lib/gui/modules/image-selector.js):
      [selectImage], [selectImageByPath], [reselectImage],
      [removeImageSelection], [selectCustomImage];
    - the flash controller: [flashImageToDrive], [getProgressButtonLabel],
      [downloadImageIfNeeded].

    JavaScript promises are modelled by their eventual outcome
    ([Resolved], [Rejected] or [Pending] for a promise that never settles).
    The code runs in a state-and-trace monad: the state is the pair of the
    two redux-backed stores the code touches (flash state and selection
    state) plus the controller's own field; the trace is the chronological
    list of calls made to collaborators, each stamped with the value
    [flashState.isFlashing()] had when the call was made. *)

From Stdlib Require Import String Ascii List ZArith Bool Lia.
From Stdlib Require Import DecimalString Sorted Permutation Orders Mergesort.
Import ListNotations.

Local Open Scope string_scope.
Local Open Scope list_scope.

(** ** JavaScript values *)

(** The few dynamically typed values the code inspects for truthiness. *)
Inductive JsVal : Type :=
| JUndefined
| JBool (b : bool)
| JStr (s : string).

(** [Boolean(v)], also the test of [if (v)] and [!v]. *)
Definition Boolean (v : JsVal) : bool :=
  match v with
  | JUndefined => false
  | JBool b => b
  | JStr s => negb (s =? "")
  end.

(** A number field that may be absent, [0] and [undefined] being falsy. *)
Definition truthy_num (n : option Z) : bool :=
  match n with
  | Some z => negb (z =? 0)%Z
  | None => false
  end.

(** A string field that may be absent, [''] and [undefined] being falsy. *)
Definition truthy_str (s : option string) : bool :=
  match s with
  | Some x => negb (x =? "")
  | None => false
  end.

(** [x === 'lit'] for a field that may be absent. *)
Definition strict_eq (x : option string) (lit : string) : bool :=
  match x with
  | Some s => s =? lit
  | None => false
  end.

(** An [Error] as the writer and the metadata reader reject with. *)
Record JsError : Type := mkError {
  code : option string;
  message : string
}.

(** The eventual outcome of a promise. *)
Inductive Promise (A E : Type) : Type :=
| Resolved (a : A)
| Rejected (e : E)
| Pending.

Arguments Resolved {A E} a.
Arguments Rejected {A E} e.
Arguments Pending {A E}.

(** The result of calling a function that may throw before returning. *)
Inductive Call (A E : Type) : Type :=
| Returned (a : A)
| Threw (e : E).

Arguments Returned {A E} a.
Arguments Threw {A E} e.

(** ** Data model *)

(** Image metadata, as [imageStream.getImageMetadata] yields it and as
    [selectImage] receives it. *)
Record Image : Type := mkImage {
  path : string;
  size : Z;
  hasMBR : bool;
  logo : JsVal;
  bmap : JsVal
}.

(** What [flashImageToDrive] is given: a local image has a [path]; a
    remote one has none and is handed to [request] as it is. *)
Record ImageSource : Type := mkSource {
  src_path : option string;
  src_url : string
}.

Record Drive : Type := mkDrive {
  device : string;
  description : string;
  drive_size : Z;
  mountpoint : string;
  system : bool
}.

(** The progress object published through
    [ImageWriterService.setProgressState] and read back through
    [flashState.getFlashState()]. *)
Record ProgressState : Type := mkProgress {
  percentage : Z;
  eta : Z;
  speed : option Z;
  type : option string
}.

(** The argument of [flashState.unsetFlashingFlag]. *)
Record FlashResults : Type := mkResults {
  cancelled : bool;
  download : bool
}.

(** Modelled from the spec: shared/models/flash-state is not part of the
    sources at hand. FlashState is the process-wide singleton
    [{ isFlashing, isDownloading, lastCancelled, current }]; the source
    reads it through [isFlashing()], [isDownloading()],
    [wasLastFlashCancelled()] and [getFlashState()], and dereferences the
    current progress record unconditionally, so it is a record here. *)
Record FlashStateT : Type := mkFlash {
  isFlashing : bool;
  isDownloading : bool;
  lastCancelled : bool;
  current : ProgressState
}.

(** Modelled from the spec: shared/models/selection-state is not part of
    the sources at hand. SelectionState holds the currently accepted
    image (or none) and an optional custom-image override (url, name). *)
Record SelectionStateT : Type := mkSelection {
  sel_image : option Image;
  sel_custom : option (string * string)
}.

(** The bodies of the messages the code builds; shared/messages is not
    part of the sources at hand, so a message is kept as the call that
    builds it. *)
Inductive ErrorMessage : Type :=
| MsgValidation
| MsgDriveUnplugged
| MsgInputOutput
| MsgNotEnoughSpaceInDrive
| MsgGenericFlashError.

Inductive WarningMessage : Type :=
| MsgLooksLikeWindowsImage
| MsgMissingPartitionTable.

Inductive NotificationBody : Type :=
| MsgFlashComplete (imageBasename : string) (drive : Drive)
| MsgFlashFailure (imageBasename : string) (drive : Drive).

Inductive UserErrorDescription : Type :=
| MsgInvalidImage (image : Image)
| MsgOpenImage (imageBasename : string) (errorMessage : string).

(** [errors.createUserError({ title, description })]. *)
Record UserError : Type := mkUserError {
  title : string;
  user_description : UserErrorDescription
}.

(** The second argument of [analytics.logEvent]. *)
Inductive Payload : Type :=
| PNone
| PImage (image : Image)
| PPreviousImage (previousImage : option Image).

(** What a rejected selection carries: [selectImage] rejects with the
    candidate itself, [selectImageByPath] also with the reader's error. *)
Inductive Reason : Type :=
| RImage (image : Image)
| RError (e : JsError).

(** ** Trace of collaborator calls *)

Inductive Event : Type :=
| ScannerStop                                   (* driveScanner.stop() *)
| ScannerStart                                  (* driveScanner.start() *)
| SetFlashingFlag                               (* flashState.setFlashingFlag() *)
| UnsetFlashingFlag (r : FlashResults)          (* flashState.unsetFlashingFlag(r) *)
| SetProgressState (p : ProgressState)          (* ImageWriterService.setProgressState(p) *)
| Request (src : ImageSource)                   (* progress(request(src), {}) *)
| PipeToFile (file : string)                    (* .pipe(fs.createWriteStream(file)) *)
| GetImageMetadata (imagePath : string)         (* imageStream.getImageMetadata *)
| ShowError (e : UserError)                     (* osDialog.showError *)
| LogEvent (name : string) (data : Payload)     (* analytics.logEvent *)
| LogException (e : JsError)                    (* analytics.logException *)
| WarningDisplay (confirmationLabel rejectionLabel : string)
                 (description : WarningMessage) (* WarningModalService.display *)
| SetImage (image : Image)                      (* selectionState.setImage *)
| RemoveImage                                   (* selectionState.removeImage *)
| SetCustomImage (url name : string)            (* selectionState.setCustomImage *)
| WriterFlash (imagePath : string) (drive : Drive) (* ImageWriterService.flash *)
| Notify (title : string) (body : NotificationBody) (icon : string)
                                                (* notification.send *)
| StateGo (name : string)                       (* $state.go *)
| ConsoleError (e : JsError)                    (* console.error *)
| ModalShow (m : ErrorMessage)                  (* FlashErrorModalService.show *)
| Report (e : JsError).                         (* exceptionReporter.report *)

Record Stamped : Type := mkStamped {
  ev : Event;
  flashing : bool
}.

Definition Trace : Type := list Stamped.

Definition events (t : Trace) : list Event := map ev t.

(** ** The state-and-trace monad *)

Record Store : Type := mkStore {
  flash : FlashStateT;
  selection : SelectionStateT;
  imagePath : option ImageSource     (* [this.imagePath] of the controller *)
}.

Definition M (A : Type) : Type := Store -> A * Store * Trace.

Definition ret {A : Type} (a : A) : M A := fun s => (a, s, []).

Definition bind {A B : Type} (m : M A) (f : A -> M B) : M B :=
  fun s =>
    let '(a, s1, t1) := m s in
    let '(b, s2, t2) := f a s1 in
    (b, s2, t1 ++ t2).

Declare Scope flash_scope.
Delimit Scope flash_scope with flash.

Notation "x <- c1 ;; c2" := (bind c1 (fun x => c2))
  (at level 100, c1 at next level, right associativity) : flash_scope.
Notation "c1 ;; c2" := (bind c1 (fun _ => c2))
  (at level 100, right associativity) : flash_scope.

Local Open Scope flash_scope.

(** A call to a collaborator, recorded with the flashing flag of the
    moment. *)
Definition emit (e : Event) : M unit :=
  fun s => (tt, s, [mkStamped e (isFlashing (flash s))]).

Definition get_flash : M FlashStateT := fun s => (flash s, s, []).

Definition get_selection : M SelectionStateT := fun s => (selection s, s, []).

Definition modify_flash (f : FlashStateT -> FlashStateT) : M unit :=
  fun s => (tt, mkStore (f (flash s)) (selection s) (imagePath s), []).

Definition modify_selection (f : SelectionStateT -> SelectionStateT) : M unit :=
  fun s => (tt, mkStore (flash s) (f (selection s)) (imagePath s), []).

Definition set_imagePath (i : ImageSource) : M unit :=
  fun s => (tt, mkStore (flash s) (selection s) (Some i), []).

(** Run a list of actions in order. *)
Fixpoint forEach {A : Type} (f : A -> M unit) (l : list A) : M unit :=
  match l with
  | [] => ret tt
  | x :: xs => f x ;; forEach f xs
  end.

(** ** The two stores *)

Module flashState.

(** Modelled from the spec: raises [isFlashing]. *)
Definition setFlashingFlag : M unit :=
  emit SetFlashingFlag ;;
  modify_flash (fun f =>
    mkFlash true (isDownloading f) (lastCancelled f) (current f)).

(** Modelled from the spec: clears [isFlashing] and keeps the results
    of the operation, of which the core consults the cancellation
    mark. *)
Definition unsetFlashingFlag (r : FlashResults) : M unit :=
  emit (UnsetFlashingFlag r) ;;
  modify_flash (fun f =>
    mkFlash false (isDownloading f) (cancelled r) (current f)).

(** Modelled from the spec: publishes a progress record into
    [FlashState.current]. *)
Definition setProgressState (p : ProgressState) : M unit :=
  modify_flash (fun f =>
    mkFlash (isFlashing f) (isDownloading f) (lastCancelled f) p).

Definition wasLastFlashCancelled : M bool :=
  f <- get_flash ;; ret (lastCancelled f).

End flashState.

Module selectionState.

(** Modelled from the spec: commits an image descriptor. *)
Definition setImage (image : Image) : M unit :=
  emit (SetImage image) ;;
  modify_selection (fun s => mkSelection (Some image) (sel_custom s)).

(** Modelled from the spec: clears the selected image. *)
Definition removeImage : M unit :=
  emit RemoveImage ;;
  modify_selection (fun s => mkSelection None (sel_custom s)).

(** Modelled from the spec: sets the custom-image override. *)
Definition setCustomImage (url name : string) : M unit :=
  emit (SetCustomImage url name) ;;
  modify_selection (fun s => mkSelection (sel_image s) (Some (url, name))).

Definition getImage : M (option Image) :=
  s <- get_selection ;; ret (sel_image s).

End selectionState.

(** ** ImageSelectorService: the part that needs no collaborator *)

(** [selectCustomImage], image-selector.js lines 249-257: two
    independent tests, each committing the same fixed URL. *)
Definition selectCustomImage (imgName : string) : M unit :=
  (if imgName =? "drideOSZ"
   then selectionState.setCustomImage "https://s3.amazonaws.com/dride/latest.zip" imgName
   else ret tt) ;;
  (if imgName =? "drideOS"
   then selectionState.setCustomImage "https://s3.amazonaws.com/dride/latest.zip" imgName
   else ret tt).

(** ** Collaborators *)

(** One progress tick of the remote transfer, as [request-progress]
    reports it. [tick_percentage] stands for the value of
    [parseInt(state.percent * 100)]: the floating-point product and its
    truncation are taken as given. *)
Record Tick : Type := mkTick {
  tick_percentage : Z;
  tick_remaining : option Z;      (* state.time.remaining *)
  tick_speed : option Z           (* state.speed *)
}.

(** The remote transfer: the ticks it emits, and whether the stream
    reaches its ['end'] signal. *)
Record Transfer : Type := mkTransfer {
  ticks : list Tick;
  ends : bool
}.

(** What the writer does to the flash state while it runs. Its progress
    reports are of type ['write'] or ['check']. *)
Inductive WriterPhase : Type := WriteP | CheckP.

Definition phase_name (p : WriterPhase) : string :=
  match p with
  | WriteP => "write"
  | CheckP => "check"
  end.

Inductive WriterAction : Type :=
| WSetFlashingFlag
| WUnsetFlashingFlag (r : FlashResults)
| WProgress (phase : WriterPhase) (percentage eta : Z) (speed : option Z).

Inductive WriterOutcome : Type :=
| WResolves
| WRejects (e : JsError)
| WThrows (e : JsError)       (* throws before returning a promise *)
| WNeverSettles.

Record WriterRun : Type := mkWriterRun {
  w_actions : list WriterAction;
  w_outcome : WriterOutcome
}.

(** The behaviour of everything the two services call but do not own. *)
Record Collaborators : Type := mkCollaborators {
  (* supportedFormats *)
  isSupportedImage : string -> bool;
  looksLikeWindowsImage : string -> bool;
  (* path.basename *)
  basename : string -> string;
  (* imageStream.getImageMetadata *)
  getImageMetadata : string -> Promise Image JsError;
  (* the user's answer to WarningModalService.display; one answer per
     message, so two prompts answered differently take two records *)
  warningAnswer : WarningMessage -> Promise bool JsError;
  (* request + request-progress *)
  transfer : ImageSource -> Transfer;
  (* ImageWriterService.flash *)
  writer : string -> Drive -> WriterRun;
  (* settings.get('unmountOnSuccess'), as a truth value *)
  unmountOnSuccess : bool
}.

(** Modelled from the spec: shared/utils is not part of the sources at
    hand; percentages range over 0..100. *)
Definition PERCENTAGE_MINIMUM : Z := 0%Z.
Definition PERCENTAGE_MAXIMUM : Z := 100%Z.

(** An integer inside a template literal: its decimal digits. (A
    JavaScript number of 1e21 and above prints in exponent form; a
    percentage is far below that.) *)
Definition show_number (z : Z) : string := NilZero.string_of_int (Z.to_int z).

Section Services.

Context (env : Collaborators).

(** *** ImageSelectorService *)

(** [WarningModalService.display(options)]: the prompt is shown and the
    user's answer comes back. *)
Definition WarningModalService_display
    (confirmationLabel rejectionLabel : string) (description : WarningMessage)
  : M (Promise bool JsError) :=
  emit (WarningDisplay confirmationLabel rejectionLabel description) ;;
  ret (warningAnswer env description).

(** [removeImageSelection], lines 200-204. *)
Definition removeImageSelection : M unit :=
  emit (LogEvent "Remvoe image selection" PNone) ;;
  selectionState.removeImage.

(** [reselectImage], lines 214-220. It returns nothing. *)
Definition reselectImage : M unit :=
  previousImage <- selectionState.getImage ;;
  emit (LogEvent "Reselect image" (PPreviousImage previousImage)) ;;
  removeImageSelection.

(** The body of [Bluebird.try], lines 93-101: the risk message, if
    any. *)
Definition riskMessage (image : Image) : M (option WarningMessage) :=
  if looksLikeWindowsImage env (path image) then
    emit (LogEvent "Possibly Windows image" (PImage image)) ;;
    ret (Some MsgLooksLikeWindowsImage)
  else if negb (hasMBR image) then
    emit (LogEvent "Missing partition table" (PImage image)) ;;
    ret (Some MsgMissingPartitionTable)
  else
    ret None.

(** [selectImage], lines 75-129. The result is the outcome of the
    promise the function returns, which settles only where the
    executor calls [resolve] or [reject]. The selection store keeps
    the descriptor as it is when [setImage] is called; the two feature
    flags are normalised afterwards, on the descriptor that is resolved
    and logged. *)
Definition selectImage (image : Image) : M (Promise Image Reason) :=
  if negb (isSupportedImage env (path image)) then
    emit (ShowError (mkUserError "Invalid image" (MsgInvalidImage image))) ;;
    emit (LogEvent "Invalid image" (PImage image)) ;;
    ret (Rejected (RImage image))
  else
    message <- riskMessage image ;;
    answer <- match message with
              | Some m => WarningModalService_display "Change" "Continue" m
              | None => ret (Resolved false)
              end ;;
    match answer with
    | Resolved shouldChange =>
        if shouldChange then
          (* return this.reselectImage(): neither resolve nor reject runs *)
          reselectImage ;;
          ret Pending
        else
          selectionState.setImage image ;;
          let image' := mkImage (path image) (size image) (hasMBR image)
                                (JBool (Boolean (logo image)))
                                (JBool (Boolean (bmap image))) in
          emit (LogEvent "Select image" (PImage image')) ;;
          ret (Resolved image')
    | Rejected e =>
        (* .catch(exceptionReporter.report) *)
        emit (Report e) ;;
        ret Pending
    | Pending => ret Pending
    end.

(** [selectImageByPath], lines 141-166. *)
Definition selectImageByPath (imagePath : string) : M (Promise Image Reason) :=
  emit (GetImageMetadata imagePath) ;;
  match getImageMetadata env imagePath with
  | Resolved imageMetadata =>
      (* $timeout(() => this.selectImage(imageMetadata).then(resolve, reject)) *)
      selectImage imageMetadata
  | Rejected error =>
      emit (ShowError (mkUserError "Error opening image"
              (MsgOpenImage (basename env imagePath) (message error)))) ;;
      emit (LogException error) ;;
      ret (Rejected (RError error))
  | Pending => ret Pending
  end.

(** *** The flash controller *)

(** What the ['progress'] handler of the transfer makes of a tick,
    lines 179-182. *)
Definition progressOfTick (state : Tick) : ProgressState :=
  mkProgress
    (tick_percentage state)
    (if truthy_num (tick_remaining state)
     then match tick_remaining state with Some r => r | None => 99 end
     else 99)%Z
    (Some (if truthy_num (tick_speed state)
           then match tick_speed state with Some v => v | None => 0 end
           else 0)%Z)
    (Some "download").

(** The ['progress'] handler of the transfer, lines 178-186. *)
Definition onProgress (state : Tick) : M unit :=
  let p := progressOfTick state in
  emit (SetProgressState p) ;;
  flashState.setProgressState p.

(** The rest of the executor of [downloadImageIfNeeded], lines
    176-193: the transfer into the staging file. *)
Definition fetchImage (image : ImageSource) : M (Promise string Reason) :=
  flashState.setFlashingFlag ;;
  emit (Request image) ;;
  emit (PipeToFile "os.zip") ;;
  forEach onProgress (ticks (transfer env image)) ;;
  if ends (transfer env image) then
    flashState.unsetFlashingFlag (mkResults false true) ;;
    ret (Resolved "./os.zip")
  else
    ret Pending.

(** [downloadImageIfNeeded], lines 167-195. *)
Definition downloadImageIfNeeded (image : ImageSource) : M (Promise string Reason) :=
  set_imagePath image ;;
  match src_path image with
  | Some p =>
      if negb (p =? "") then
        (* Skip downloading image for local images *)
        ret (Resolved p)
      else
        fetchImage image
  | None => fetchImage image
  end.

(** One step of the writer on the flash state. *)
Definition writerAction (a : WriterAction) : M unit :=
  match a with
  | WSetFlashingFlag => flashState.setFlashingFlag
  | WUnsetFlashingFlag r => flashState.unsetFlashingFlag r
  | WProgress ph pc e sp =>
      let p := mkProgress pc e sp (Some (phase_name ph)) in
      emit (SetProgressState p) ;;
      flashState.setProgressState p
  end.

(** Modelled from the spec: the ImageWriter service is not part of the
    sources at hand. [flash(imagePath, drive)] hands the image to the
    writer, which reports progress into the flash state while it runs
    and then resolves, rejects with an error carrying a [code], throws
    at once, or never settles. *)
Definition ImageWriterService_flash (imagePath : string) (drive : Drive)
  : M (Call (Promise unit JsError) JsError) :=
  emit (WriterFlash imagePath drive) ;;
  forEach writerAction (w_actions (writer env imagePath drive)) ;;
  ret (match w_outcome (writer env imagePath drive) with
       | WResolves => Returned (Resolved tt)
       | WRejects e => Returned (Rejected e)
       | WThrows e => Threw e
       | WNeverSettles => Returned Pending
       end).

Definition iconPath : string := "../../assets/icon.png".

(** The fulfilment handler of the writer's promise, lines 78-89. *)
Definition onFlashed (image : Image) (drive : Drive) : M unit :=
  wasCancelled <- flashState.wasLastFlashCancelled ;;
  if negb wasCancelled then
    emit (Notify "Success!"
                 (MsgFlashComplete (basename env (path image)) drive) iconPath) ;;
    emit (StateGo "success")
  else
    ret tt.

(** The classification of lines 103-114. *)
Definition showFlashError (error : JsError) : M unit :=
  if strict_eq (code error) "EVALIDATION" then
    emit (ModalShow MsgValidation)
  else if strict_eq (code error) "EUNPLUGGED" then
    emit (ModalShow MsgDriveUnplugged)
  else if strict_eq (code error) "EIO" then
    emit (ModalShow MsgInputOutput)
  else if strict_eq (code error) "ENOSPC" then
    emit (ModalShow MsgNotEnoughSpaceInDrive)
  else
    emit (ModalShow MsgGenericFlashError) ;;
    emit (Report error).

(** The rejection handler of the writer's promise, lines 90-114. *)
Definition onFlashFailed (image : Image) (drive : Drive) (error : JsError) : M unit :=
  emit (ConsoleError error) ;;
  emit (Notify "Oops! Looks like the flash failed."
               (MsgFlashFailure (basename env (path image)) drive) iconPath) ;;
  showFlashError error.

(** [flashImageToDrive], lines 62-120. The three promises are chained
    by [then] only: a rejected or pending download or selection runs
    none of the handlers below it, and a writer that throws leaves the
    handlers of lines 78-117 unattached. *)
Definition flashImageToDrive (image : ImageSource) (drive : Drive) : M unit :=
  flashState_now <- get_flash ;;
  if isFlashing flashState_now then
    ret tt
  else
    (* Stop scanning drives when flashing *)
    emit ScannerStop ;;
    downloaded <- downloadImageIfNeeded image ;;
    match downloaded with
    | Resolved retPath =>
        selected <- selectImageByPath retPath ;;
        match selected with
        | Resolved res =>
            flashed <- ImageWriterService_flash (path res) drive ;;
            match flashed with
            | Returned (Resolved _) =>
                onFlashed res drive ;;
                emit ScannerStart            (* .finally *)
            | Returned (Rejected error) =>
                onFlashFailed res drive error ;;
                emit ScannerStart            (* .finally *)
            | Returned Pending => ret tt
            | Threw _ => ret tt
            end
        | Rejected _ => ret tt
        | Pending => ret tt
        end
    | Rejected _ => ret tt
    | Pending => ret tt
    end.

(** The label as a function of what the getters return, lines
    133-155. *)
Definition progressButtonLabel (fs : FlashStateT) : string :=
  let currentFlashState := current fs in
  let isChecking := strict_eq (type currentFlashState) "check" in
  let isDownloadingType := strict_eq (type currentFlashState) "download" in
  if negb (isDownloading fs) then
    "Flash!"
  else if negb (isFlashing fs) then
    "Flash!"
  else if (percentage currentFlashState =? PERCENTAGE_MINIMUM)%Z
          && negb (truthy_num (speed currentFlashState)) then
    "Starting..."
  else if (percentage currentFlashState =? PERCENTAGE_MAXIMUM)%Z then
    if isChecking && unmountOnSuccess env then
      "Unmounting..."
    else
      "Finishing..."
  else if isChecking then
    show_number (percentage currentFlashState) ++ "% Validating..."
  else if isDownloadingType then
    show_number (percentage currentFlashState) ++ "% Downloading..."
  else
    show_number (percentage currentFlashState) ++ "%".

(** [getProgressButtonLabel], lines 132-156. *)
Definition getProgressButtonLabel : M string :=
  fs <- get_flash ;;
  ret (progressButtonLabel fs).

End Services.

(** ** Reading a run *)

Definition result_of {A : Type} (r : A * Store * Trace) : A := fst (fst r).
Definition store_of {A : Type} (r : A * Store * Trace) : Store := snd (fst r).
Definition trace_of {A : Type} (r : A * Store * Trace) : Trace := snd r.

(** The state in which nothing is selected and nothing is in flight. *)
Definition idle : Store :=
  mkStore (mkFlash false false false (mkProgress 0%Z 0%Z None None))
          (mkSelection None None)
          None.

(** Selectors on events. *)
Definition is_scanner_stop (e : Event) : bool :=
  match e with ScannerStop => true | _ => false end.

Definition is_scanner_start (e : Event) : bool :=
  match e with ScannerStart => true | _ => false end.

Definition is_notify (e : Event) : bool :=
  match e with Notify _ _ _ => true | _ => false end.

Definition is_state_go (e : Event) : bool :=
  match e with StateGo _ => true | _ => false end.

Definition is_set_image (e : Event) : bool :=
  match e with SetImage _ => true | _ => false end.

Definition is_writer_flash (e : Event) : bool :=
  match e with WriterFlash _ _ => true | _ => false end.

(** A progress record of the download phase, or a call that moves bytes
    of the remote source. *)
Definition is_download_progress (e : Event) : bool :=
  match e with
  | SetProgressState p => strict_eq (type p) "download"
  | _ => false
  end.

Definition is_transfer (e : Event) : bool :=
  match e with
  | Request _ => true
  | PipeToFile _ => true
  | _ => false
  end.

Definition count (f : Event -> bool) (t : Trace) : nat :=
  length (filter f (events t)).

(** The warnings shown, the flash-error messages shown and the errors
    reported, in order. *)
Definition warnings (t : Trace) : list WarningMessage :=
  flat_map (fun e => match e with WarningDisplay _ _ m => [m] | _ => [] end)
           (events t).

Definition modal_of (e : Event) : list ErrorMessage :=
  match e with ModalShow m => [m] | _ => [] end.

Definition report_of (e : Event) : list JsError :=
  match e with Report x => [x] | _ => [] end.

Definition modal_messages (t : Trace) : list ErrorMessage :=
  flat_map modal_of (events t).

Definition reports (t : Trace) : list JsError :=
  flat_map report_of (events t).

(** ** Example collaborators *)

(** The last [n] characters of a string. *)
Definition suffix (n : nat) (s : string) : string :=
  substring (String.length s - n) n s.

(** Modelled from the spec: shared/supported-formats is not part of the
    sources at hand. A path is a supported image iff its extension is in
    the registered set, whose main members are img, iso and zip. *)
Definition example_isSupportedImage (p : string) : bool :=
  (suffix 4 p =? ".img") || (suffix 4 p =? ".iso") || (suffix 4 p =? ".zip").

(** Whether [s] contains [w]. *)
Fixpoint contains (w s : string) : bool :=
  if prefix w s then true
  else match s with
       | EmptyString => false
       | String _ s' => contains w s'
       end.

(** Modelled from the spec: a name check that may have false
    positives. *)
Definition example_looksLikeWindowsImage (p : string) : bool :=
  contains "windows" p.

(** The file-name component of a POSIX path that does not end in a
    slash: what follows the last slash. *)
Fixpoint example_basename_from (acc s : string) : string :=
  match s with
  | EmptyString => acc
  | String c s' =>
      if Ascii.eqb c "/"%char then example_basename_from "" s'
      else example_basename_from (acc ++ String c "") s'
  end.

Definition example_basename (p : string) : string := example_basename_from "" p.

Definition sd_card : Drive := mkDrive "/dev/disk2" "Foo" 99999%Z "/mnt/foo" false.

Definition rpi_img : Image := mkImage "/images/rpi.img" 1000000000%Z true JUndefined JUndefined.
Definition raw_img : Image := mkImage "/images/raw.img" 1000000000%Z false (JStr "<svg/>") JUndefined.
Definition windows_iso : Image := mkImage "/images/windows10.iso" 4000000000%Z true JUndefined JUndefined.
Definition notes_txt : Image := mkImage "/home/me/notes.txt" 120%Z false JUndefined JUndefined.

(** A reader that knows four files. *)
Definition example_getImageMetadata (p : string) : Promise Image JsError :=
  if p =? "/images/rpi.img" then Resolved rpi_img
  else if p =? "/images/raw.img" then Resolved raw_img
  else if p =? "/images/windows10.iso" then Resolved windows_iso
  else if p =? "/home/me/notes.txt" then Resolved notes_txt
  else if p =? "./os.zip" then Resolved (mkImage "./os.zip" 500000000%Z true JUndefined JUndefined)
  else Rejected (mkError (Some "ENOENT") "no such file").

(** A session of the example: the user's answer to a warning and the
    run of the writer vary, the rest is fixed. *)
Definition example_env (answer : Promise bool JsError) (run : WriterRun) : Collaborators :=
  mkCollaborators
    example_isSupportedImage
    example_looksLikeWindowsImage
    example_basename
    example_getImageMetadata
    (fun _ => answer)
    (fun _ => mkTransfer [mkTick 0%Z None None; mkTick 10%Z (Some 30%Z) (Some 2048%Z);
                          mkTick 45%Z (Some 12%Z) (Some 4096%Z); mkTick 100%Z (Some 0%Z) (Some 4096%Z)]
                         true)
    (fun _ _ => run)
    true.

(** A writer that raises the flag, reports, clears the flag and
    resolves. *)
Definition writes_well : WriterRun :=
  mkWriterRun [WSetFlashingFlag; WProgress WriteP 50%Z 10%Z (Some 1000%Z);
               WProgress CheckP 100%Z 0%Z (Some 1000%Z);
               WUnsetFlashingFlag (mkResults false false)]
              WResolves.

(** A writer that fails with the given code. *)
Definition fails_with (c : option string) : WriterRun :=
  mkWriterRun [WSetFlashingFlag; WProgress WriteP 50%Z 10%Z (Some 1000%Z);
               WUnsetFlashingFlag (mkResults false false)]
              (WRejects (mkError c "write failed")).

(** A writer that throws before it returns a promise. *)
Definition throws_at_once : WriterRun :=
  mkWriterRun [] (WThrows (mkError None "spawn failed")).

(** A writer that rejects after the user has cancelled. *)
Definition cancelled_then_fails : WriterRun :=
  mkWriterRun [WSetFlashingFlag; WUnsetFlashingFlag (mkResults true false)]
              (WRejects (mkError (Some "EIO") "i/o error")).

(** A writer that resolves after the user has cancelled. *)
Definition cancelled_then_resolves : WriterRun :=
  mkWriterRun [WSetFlashingFlag; WUnsetFlashingFlag (mkResults true false)]
              WResolves.

Definition local (p : string) : ImageSource := mkSource (Some p) "".
Definition remote : ImageSource := mkSource None "https://s3.amazonaws.com/dride/latest.zip".

(** ** Notions used to state the properties *)

(** Calls of the image selector. *)
Definition selector_event (e : Event) : bool :=
  match e with
  | GetImageMetadata _ | ShowError _ | LogEvent _ _ | LogException _
  | WarningDisplay _ _ _ | SetImage _ | RemoveImage | Report _ => true
  | _ => false
  end.

(** Calls of the download phase. *)
Definition transfer_event (e : Event) : bool :=
  match e with
  | SetFlashingFlag | UnsetFlashingFlag _ | Request _ | PipeToFile _ => true
  | SetProgressState p => strict_eq (type p) "download"
  | _ => false
  end.

(** Calls the writer makes on the flash state. *)
Definition writer_event (e : Event) : bool :=
  match e with
  | SetFlashingFlag | UnsetFlashingFlag _ => true
  | SetProgressState p => strict_eq (type p) "write" || strict_eq (type p) "check"
  | _ => false
  end.

(** Calls made while a transfer is under way: after the flag was raised
    and up to the call that lowers it. *)
Definition during_transfer (e : Event) : bool :=
  match e with
  | Request _ | PipeToFile _ | SetProgressState _ | UnsetFlashingFlag _ => true
  | _ => false
  end.

(** The flashing flag after the writer's actions. *)
Fixpoint flag_after (acts : list WriterAction) (b : bool) : bool :=
  match acts with
  | [] => b
  | WSetFlashingFlag :: rest => flag_after rest true
  | WUnsetFlashingFlag _ :: rest => flag_after rest false
  | WProgress _ _ _ _ :: rest => flag_after rest b
  end.

(** The part of a trace that precedes the writer's invocation. *)
Fixpoint before_writer (t : Trace) : Trace :=
  match t with
  | [] => []
  | x :: rest => if is_writer_flash (ev x) then [] else x :: before_writer rest
  end.

Definition is_local (image : ImageSource) : bool := truthy_str (src_path image).

(** Calls of the handlers attached to the writer's promise. *)
Definition handler_event (e : Event) : bool :=
  match e with
  | Notify _ _ _ | StateGo _ | ConsoleError _ | ModalShow _ | Report _
  | ScannerStart => true
  | _ => false
  end.

(** A list of calls made under one value of the flag. *)
Definition stamp (b : bool) (l : list Event) : Trace := map (fun e => mkStamped e b) l.

Arguments stamp : simpl never.

(** The singleton of an event that satisfies [f]. *)
Definition keep (f : Event -> bool) (e : Event) : list Event :=
  if f e then [e] else [].

(** The flash-error modal and the report, by error code. *)
Definition flash_error_events (error : JsError) : list Event :=
  if strict_eq (code error) "EVALIDATION" then [ModalShow MsgValidation]
  else if strict_eq (code error) "EUNPLUGGED" then [ModalShow MsgDriveUnplugged]
  else if strict_eq (code error) "EIO" then [ModalShow MsgInputOutput]
  else if strict_eq (code error) "ENOSPC" then [ModalShow MsgNotEnoughSpaceInDrive]
  else [ModalShow MsgGenericFlashError; Report error].

(** What the handlers attached to the writer's promise emit, by outcome
    and by the cancellation mark read when the promise settles. *)
Definition handler_events (env : Collaborators) (imagePath : string) (drive : Drive)
    (outcome : WriterOutcome) (wasCancelled : bool) : list Event :=
  match outcome with
  | WResolves =>
      (if wasCancelled then []
       else [Notify "Success!" (MsgFlashComplete (basename env imagePath) drive) iconPath;
             StateGo "success"])
      ++ [ScannerStart]
  | WRejects error =>
      [ConsoleError error;
       Notify "Oops! Looks like the flash failed."
              (MsgFlashFailure (basename env imagePath) drive) iconPath]
      ++ flash_error_events error
      ++ [ScannerStart]
  | WThrows _ => []
  | WNeverSettles => []
  end.

(** The name under which a risk is logged. *)
Definition risk_event (m : WarningMessage) : string :=
  match m with
  | MsgLooksLikeWindowsImage => "Possibly Windows image"
  | MsgMissingPartitionTable => "Missing partition table"
  end.

(** The store of a download or a write in progress. *)
Definition in_progress (downloading flashing_now : bool) (p : ProgressState) : Store :=
  mkStore (mkFlash flashing_now downloading false p) (mkSelection None None) None.

(** The calls made strictly between a session's first call and its
    last. *)
Definition interior (t : Trace) : Trace := removelast (tl t).

(** The shape of a session. [prepare] and [conclude] cut
    [flashImageToDrive] at the writer's invocation, and [session_trace]
    and [session_store] spell out what a session that passed the guard
    emits and leaves; [flashImageToDrive_split] and
    [flashImageToDrive_run] below show that this is what the code
    does. *)
Section SessionShape.

Context (env : Collaborators).

(** Download, then selection: all that precedes the writer. *)
Definition prepare (image : ImageSource) : M (Promise Image Reason) :=
  downloaded <- downloadImageIfNeeded env image ;;
  match downloaded with
  | Resolved retPath => selectImageByPath env retPath
  | Rejected r => ret (Rejected r)
  | Pending => ret Pending
  end.

(** The writer and the handlers attached to its promise. *)
Definition conclude (res : Image) (drive : Drive) : M unit :=
  flashed <- ImageWriterService_flash env (path res) drive ;;
  match flashed with
  | Returned (Resolved _) => onFlashed env res drive ;; emit ScannerStart
  | Returned (Rejected error) => onFlashFailed env res drive error ;; emit ScannerStart
  | Returned Pending => ret tt
  | Threw _ => ret tt
  end.

(** A whole session that passed the entry guard. *)
Definition session_trace (image : ImageSource) (drive : Drive) (s : Store) : Trace :=
  let prepared := prepare image s in
  mkStamped ScannerStop false
  :: trace_of prepared
  ++ match result_of prepared with
     | Resolved res =>
         let w := writer env (path res) drive in
         let acted := forEach writerAction (w_actions w) (store_of prepared) in
         mkStamped (WriterFlash (path res) drive) false
         :: trace_of acted
         ++ stamp (isFlashing (flash (store_of acted)))
                  (handler_events env (path res) drive (w_outcome w)
                     (lastCancelled (flash (store_of acted))))
     | _ => []
     end.

Definition session_store (image : ImageSource) (drive : Drive) (s : Store) : Store :=
  let prepared := prepare image s in
  match result_of prepared with
  | Resolved res =>
      store_of (forEach writerAction
                  (w_actions (writer env (path res) drive)) (store_of prepared))
  | _ => store_of prepared
  end.

End SessionShape.

(** ** The rest of the image selector *)

(** [_.includes], the membership test behind lodash's set operations on
    arrays of strings. *)
Definition includes (x : string) (l : list string) : bool :=
  existsb (String.eqb x) l.

(** [_.intersection(a, b)]: the values of [a] that occur in [b], each
    once, in the order of their first occurrence in [a]. *)
Fixpoint intersection_from (seen a b : list string) : list string :=
  match a with
  | [] => []
  | x :: xs =>
      if includes x seen then intersection_from seen xs b
      else if includes x b then x :: intersection_from (x :: seen) xs b
      else intersection_from seen xs b
  end.

Definition intersection (a b : list string) : list string :=
  intersection_from [] a b.

(** [_.difference(a, b)]: the elements of [a] that do not occur in [b],
    in the order of [a], repetitions kept. *)
Definition difference (a b : list string) : list string :=
  filter (fun x => negb (includes x b)) a.

(** The order of [Array.prototype.sort] without a comparator: strings by
    their code units (the bytes of the string here, which is the same for
    the ASCII names of extensions). *)
Module StringOrder <: TotalLeBool.
Definition t : Type := string.
Definition leb (x y : string) : bool := String.leb x y.
Definition leb_total : forall x y : string, leb x y = true \/ leb y x = true :=
  String.leb_total.
End StringOrder.

Module StringSort := Sort StringOrder.

(** [mainSupportedExtensions], image-selector.js lines 47-51, given what
    [supportedFormats.getAllExtensions()] returns. *)
Definition mainSupportedExtensions (allExtensions : list string) : list string :=
  intersection ["img"; "iso"; "zip"] allExtensions.

(** [extraSupportedExtensions], lines 59-62. *)
Definition extraSupportedExtensions (allExtensions : list string) : list string :=
  StringSort.sort (difference allExtensions (mainSupportedExtensions allExtensions)).

(** Modelled from the spec: Selection State exposes get/set/clear for
    the custom-image override; [clearCustomSelection] drops it. The call
    leaves no entry in the trace. *)
Definition selectionState_clearCustomSelection : M unit :=
  modify_selection (fun s => mkSelection (sel_image s) None).

Section SelectorRest.

Context (env : Collaborators).

(** [getImageBasename], lines 232-238: [hasImage()] holds iff an image
    is selected and [getImagePath()] is the path of that image. *)
Definition getImageBasename : M string :=
  s <- get_selection ;;
  match sel_image s with
  | None => ret ""
  | Some image => ret (basename env (path image))
  end.

(** [openImageSelector], lines 176-190, given the outcome of
    [osDialog.selectImage()]: a path, or nothing when the dialog is
    closed. The promise of [selectImageByPath] is not returned from the
    handler, so [.catch] sees the dialog's rejection only. *)
Definition openImageSelector (dialog : Promise (option string) JsError) : M unit :=
  emit (LogEvent "Open image selector" PNone) ;;
  selectionState_clearCustomSelection ;;
  match dialog with
  | Resolved imagePath =>
      match imagePath with
      | Some p =>
          if negb (p =? "") then
            _ <- selectImageByPath env p ;;
            ret tt
          else
            emit (LogEvent "Image selector closed" PNone)
      | None => emit (LogEvent "Image selector closed" PNone)
      end
  | Rejected e => emit (Report e)
  | Pending => ret tt
  end.

End SelectorRest.

(** Selectors used to state the further properties. *)
Definition is_get_metadata (e : Event) : bool :=
  match e with GetImageMetadata _ => true | _ => false end.

Definition is_modal_show (e : Event) : bool :=
  match e with ModalShow _ => true | _ => false end.

(** The progress records published, in order. *)
Definition published (t : Trace) : list ProgressState :=
  flat_map (fun e => match e with SetProgressState p => [p] | _ => [] end)
           (events t).

(** ** Proof support *)

Ltac unfold_monad :=
  unfold bind, ret, emit, get_flash, get_selection, modify_flash,
         modify_selection, set_imagePath in *.

Ltac unfold_stores :=
  unfold selectionState.setImage, selectionState.removeImage,
         selectionState.setCustomImage, selectionState.getImage,
         flashState.setFlashingFlag, flashState.unsetFlashingFlag,
         flashState.setProgressState, flashState.wasLastFlashCancelled in *.

Ltac run := unfold_stores; unfold_monad; simpl.

(** Side conditions by cases on the event. *)
Ltac by_event_cases :=
  let e := fresh "e" in
  intros e; destruct e; simpl; intros; try reflexivity; try discriminate;
  try congruence.

(** An event in a computed trace. *)
Ltac find_event := repeat (try (left; reflexivity); right).

Lemma store_eta (s : Store) : mkStore (flash s) (selection s) (imagePath s) = s.
Proof. destruct s; reflexivity. Qed.

Lemma flash_eta (f : FlashStateT) :
  mkFlash (isFlashing f) (isDownloading f) (lastCancelled f) (current f) = f.
Proof. destruct f; reflexivity. Qed.

Lemma selection_eta (x : SelectionStateT) :
  mkSelection (sel_image x) (sel_custom x) = x.
Proof. destruct x; reflexivity. Qed.

Lemma events_app (t1 t2 : Trace) : events (t1 ++ t2) = events t1 ++ events t2.
Proof. unfold events. apply map_app. Qed.

Lemma count_app (f : Event -> bool) (t1 t2 : Trace) :
  count f (t1 ++ t2) = count f t1 + count f t2.
Proof.
  unfold count. rewrite events_app, filter_app, length_app. reflexivity.
Qed.

(** ** The image selector *)

Section SelectorFacts.

Context (env : Collaborators).

(** The risk message depends on the heuristic first and on the
    partition table second; computing it changes no store. *)
Lemma riskMessage_run (image : Image) (s : Store) :
  riskMessage env image s =
    if looksLikeWindowsImage env (path image) then
      (Some MsgLooksLikeWindowsImage, s,
       [mkStamped (LogEvent "Possibly Windows image" (PImage image))
                  (isFlashing (flash s))])
    else if negb (hasMBR image) then
      (Some MsgMissingPartitionTable, s,
       [mkStamped (LogEvent "Missing partition table" (PImage image))
                  (isFlashing (flash s))])
    else (None, s, []).
Proof.
  unfold riskMessage.
  destruct (looksLikeWindowsImage env (path image)); [reflexivity|].
  destruct (hasMBR image); reflexivity.
Qed.

(** [reselectImage] only logs and clears the selected image. *)
Lemma reselectImage_run (s : Store) :
  reselectImage s =
    (tt,
     mkStore (flash s) (mkSelection None (sel_custom (selection s))) (imagePath s),
     map (fun e => mkStamped e (isFlashing (flash s)))
         [LogEvent "Reselect image" (PPreviousImage (sel_image (selection s)));
          LogEvent "Remvoe image selection" PNone;
          RemoveImage]).
Proof. reflexivity. Qed.

End SelectorFacts.

(** C5, as the code has it. For every candidate image whose path is not
    a supported image, [selectImage] surfaces the "Invalid image" user
    error through [osDialog.showError], logs the "Invalid image" event
    and rejects its promise with the candidate image itself; the stores
    are exactly as before, and [selectionState.setImage] is not
    called. *)
Theorem selectImage_unsupported_rejects
    (env : Collaborators) (image : Image) (s : Store) :
  isSupportedImage env (path image) = false ->
  result_of (selectImage env image s) = Rejected (RImage image)
  /\ events (trace_of (selectImage env image s)) =
       [ShowError (mkUserError "Invalid image" (MsgInvalidImage image));
        LogEvent "Invalid image" (PImage image)]
  /\ store_of (selectImage env image s) = s
  /\ count is_set_image (trace_of (selectImage env image s)) = 0.
Proof.
  intros Hunsupported.
  unfold selectImage. rewrite Hunsupported. simpl.
  repeat split; reflexivity.
Qed.

Lemma selectImage_unsupported_rejects_witness :
  let env := example_env (Resolved false) writes_well in
  let s := mkStore (flash idle) (mkSelection (Some rpi_img) None) None in
  result_of (selectImage env notes_txt s) = Rejected (RImage notes_txt)
  /\ events (trace_of (selectImage env notes_txt s)) =
       [ShowError (mkUserError "Invalid image" (MsgInvalidImage notes_txt));
        LogEvent "Invalid image" (PImage notes_txt)]
  /\ store_of (selectImage env notes_txt s) = s
  /\ count is_set_image (trace_of (selectImage env notes_txt s)) = 0.
Proof.
  intros env s.
  apply (selectImage_unsupported_rejects env notes_txt s).
  reflexivity.
Defined.

(** C5, as the spec has it, fails on the value of the rejection: for an
    unsupported file the "Invalid image" error goes to the dialog, and
    what the promise is rejected with is the candidate image, not an
    error. *)
Lemma selectImage_rejects_with_candidate :
  let env := example_env (Resolved false) writes_well in
  let r := selectImage env notes_txt idle in
  isSupportedImage env (path notes_txt) = false
  /\ In (ShowError (mkUserError "Invalid image" (MsgInvalidImage notes_txt)))
        (events (trace_of r))
  /\ result_of r = Rejected (RImage notes_txt)
  /\ ~ (exists e : JsError, result_of r = Rejected (RError e)).
Proof.
  split; [reflexivity|]. split; [left; reflexivity|]. split; [reflexivity|].
  intros [e He]. discriminate He.
Qed.

(** C6. For every supported candidate, [selectImage] shows at most one
    warning, and the Windows heuristic is tried first: a path that
    matches it gets exactly the "looks like Windows image" warning
    whatever [hasMBR] is; a path that does not match and has no
    partition table gets exactly the "missing partition table" warning;
    the two are never shown together. *)
Theorem selectImage_one_risk_message
    (env : Collaborators) (image : Image) (s : Store) :
  isSupportedImage env (path image) = true ->
  (looksLikeWindowsImage env (path image) = true ->
     warnings (trace_of (selectImage env image s)) = [MsgLooksLikeWindowsImage])
  /\ (looksLikeWindowsImage env (path image) = false -> hasMBR image = false ->
        warnings (trace_of (selectImage env image s)) = [MsgMissingPartitionTable])
  /\ (looksLikeWindowsImage env (path image) = false -> hasMBR image = true ->
        warnings (trace_of (selectImage env image s)) = [])
  /\ length (warnings (trace_of (selectImage env image s))) <= 1.
Proof.
  intros Hsupported.
  unfold selectImage, riskMessage, WarningModalService_display.
  rewrite Hsupported.
  destruct (looksLikeWindowsImage env (path image)) eqn:Hwin;
    [| destruct (hasMBR image) eqn:Hmbr ]; run;
    try (destruct (warningAnswer env _) as [[|]| |]); simpl;
    repeat split; intros; try discriminate; try reflexivity; auto.
Qed.

Lemma selectImage_one_risk_message_witness :
  let env := example_env (Resolved false) writes_well in
  (looksLikeWindowsImage env (path windows_iso) = true ->
     warnings (trace_of (selectImage env windows_iso idle)) = [MsgLooksLikeWindowsImage])
  /\ (looksLikeWindowsImage env (path windows_iso) = false -> hasMBR windows_iso = false ->
        warnings (trace_of (selectImage env windows_iso idle)) = [MsgMissingPartitionTable])
  /\ (looksLikeWindowsImage env (path windows_iso) = false -> hasMBR windows_iso = true ->
        warnings (trace_of (selectImage env windows_iso idle)) = [])
  /\ length (warnings (trace_of (selectImage env windows_iso idle))) <= 1.
Proof.
  intros env.
  apply (selectImage_one_risk_message env windows_iso idle).
  reflexivity.
Defined.

(** The two warnings on the example files: the heuristic wins over a
    missing partition table. *)
Example windows_warning_even_without_MBR :
  let env := example_env (Resolved false) writes_well in
  let image := mkImage "/images/windows10.iso" 4000000000%Z false JUndefined JUndefined in
  warnings (trace_of (selectImage env image idle)) = [MsgLooksLikeWindowsImage].
Proof. reflexivity. Qed.

Example missing_partition_table_warning :
  let env := example_env (Resolved false) writes_well in
  warnings (trace_of (selectImage env raw_img idle)) = [MsgMissingPartitionTable].
Proof. reflexivity. Qed.

(** C7, as the code has it. For every [selectImage] call in which a risk
    warning [m] was shown and the user chose "Change", [reselectImage]
    runs: it logs the reselection and removes the selected image, and it
    re-invokes no selection. [setImage] is not called, so the risky
    candidate is not committed, and the promise returned by
    [selectImage] is neither resolved nor rejected. *)
Theorem selectImage_change_clears_selection
    (env : Collaborators) (image : Image) (m : WarningMessage) (s : Store) :
  isSupportedImage env (path image) = true ->
  result_of (riskMessage env image s) = Some m ->
  warningAnswer env m = Resolved true ->
  result_of (selectImage env image s) = Pending
  /\ store_of (selectImage env image s) =
       mkStore (flash s) (mkSelection None (sel_custom (selection s))) (imagePath s)
  /\ events (trace_of (selectImage env image s)) =
       [LogEvent (risk_event m) (PImage image);
        WarningDisplay "Change" "Continue" m;
        LogEvent "Reselect image" (PPreviousImage (sel_image (selection s)));
        LogEvent "Remvoe image selection" PNone;
        RemoveImage]
  /\ count is_set_image (trace_of (selectImage env image s)) = 0.
Proof.
  intros Hsupported Hrisk Hanswer.
  rewrite riskMessage_run in Hrisk.
  unfold selectImage, riskMessage, WarningModalService_display.
  rewrite Hsupported.
  destruct (looksLikeWindowsImage env (path image)) eqn:Hwin;
    [| destruct (hasMBR image) eqn:Hmbr ];
    simpl in Hrisk; try discriminate;
    injection Hrisk as <-; run; rewrite Hanswer; simpl;
    repeat split; reflexivity.
Qed.

Lemma selectImage_change_clears_selection_witness :
  let env := example_env (Resolved true) writes_well in
  let s := mkStore (flash idle) (mkSelection (Some rpi_img) None) None in
  result_of (selectImage env raw_img s) = Pending
  /\ store_of (selectImage env raw_img s) =
       mkStore (flash s) (mkSelection None (sel_custom (selection s))) (imagePath s)
  /\ events (trace_of (selectImage env raw_img s)) =
       [LogEvent (risk_event MsgMissingPartitionTable) (PImage raw_img);
        WarningDisplay "Change" "Continue" MsgMissingPartitionTable;
        LogEvent "Reselect image" (PPreviousImage (sel_image (selection s)));
        LogEvent "Remvoe image selection" PNone;
        RemoveImage]
  /\ count is_set_image (trace_of (selectImage env raw_img s)) = 0.
Proof.
  intros env s.
  apply (selectImage_change_clears_selection env raw_img MsgMissingPartitionTable s);
    reflexivity.
Defined.

(** C7, as the spec has it, fails: with an image that lacks a partition
    table and a user who picks "Change", the promise of [selectImage]
    resolves with nothing, and no metadata is read for a new
    selection. *)
Lemma selectImage_change_does_not_resolve :
  let env := example_env (Resolved true) writes_well in
  let s := mkStore (flash idle) (mkSelection (Some rpi_img) None) None in
  ~ (exists r : Image, result_of (selectImage env raw_img s) = Resolved r)
  /\ ~ (exists p : string,
          In (GetImageMetadata p) (events (trace_of (selectImage env raw_img s)))).
Proof.
  split.
  - intros [r Hr]. discriminate Hr.
  - intros [p Hp]. simpl in Hp.
    repeat (destruct Hp as [Hp | Hp]; [discriminate Hp|]). exact Hp.
Qed.

(** C10. [selectCustomImage] given exactly ['drideOSZ'] or ['drideOS']
    sets the custom image to the fixed URL paired with the given name,
    with one call to the store and no other change; given any other name
    it does nothing and leaves the stores as they were. *)
Theorem selectCustomImage_fixed_url (imgName : string) (s : Store) :
  (imgName = "drideOSZ" \/ imgName = "drideOS" ->
     selectCustomImage imgName s =
       (tt,
        mkStore (flash s)
                (mkSelection (sel_image (selection s))
                   (Some ("https://s3.amazonaws.com/dride/latest.zip", imgName)))
                (imagePath s),
        [mkStamped (SetCustomImage "https://s3.amazonaws.com/dride/latest.zip" imgName)
                   (isFlashing (flash s))]))
  /\ (imgName <> "drideOSZ" -> imgName <> "drideOS" ->
        selectCustomImage imgName s = (tt, s, [])).
Proof.
  split.
  - intros [-> | ->]; reflexivity.
  - intros HZ HS. unfold selectCustomImage.
    apply String.eqb_neq in HZ. apply String.eqb_neq in HS.
    rewrite HZ, HS. reflexivity.
Qed.

Lemma selectCustomImage_fixed_url_witness :
  store_of (selectCustomImage "drideOS" idle) =
    mkStore (flash idle)
            (mkSelection None (Some ("https://s3.amazonaws.com/dride/latest.zip", "drideOS")))
            None
  /\ store_of (selectCustomImage "drideOSZ" idle) =
       mkStore (flash idle)
               (mkSelection None (Some ("https://s3.amazonaws.com/dride/latest.zip", "drideOSZ")))
               None
  /\ selectCustomImage "raspbian" idle = (tt, idle, []).
Proof.
  split; [| split ].
  - rewrite (proj1 (selectCustomImage_fixed_url "drideOS" idle) (or_intror eq_refl)).
    reflexivity.
  - rewrite (proj1 (selectCustomImage_fixed_url "drideOSZ" idle) (or_introl eq_refl)).
    reflexivity.
  - apply (proj2 (selectCustomImage_fixed_url "raspbian" idle)); discriminate.
Defined.

(** ** The progress button label *)

Lemma strict_eq_true (x : option string) (lit : string) :
  strict_eq x lit = true <-> x = Some lit.
Proof.
  destruct x as [v|]; simpl.
  - rewrite String.eqb_eq. split; [intros ->; reflexivity | intros [= ->]; reflexivity].
  - split; discriminate.
Qed.

Lemma strict_eq_false (x : option string) (lit : string) :
  strict_eq x lit = false <-> x <> Some lit.
Proof.
  rewrite <- strict_eq_true. destruct (strict_eq x lit); split; congruence.
Qed.

(** [getProgressButtonLabel] reads the flash state and the setting and
    touches nothing. *)
Lemma getProgressButtonLabel_run (env : Collaborators) (s : Store) :
  getProgressButtonLabel env s = (progressButtonLabel env (flash s), s, []).
Proof. reflexivity. Qed.

(** C8, as the code has it. [getProgressButtonLabel] has no side effect
    and is a function of the flash state and of the unmount-on-success
    setting. It returns "Flash!" when not downloading or not flashing.
    When both downloading and flashing it returns: "Starting..." at
    percentage 0 with no speed; at percentage 100, "Unmounting..." if the
    type is 'check' and the setting is enabled, else "Finishing..."; and
    otherwise "{percentage}% Validating..." for type 'check',
    "{percentage}% Downloading..." for type 'download', and
    "{percentage}%" for any other type. *)
Theorem getProgressButtonLabel_cases (env : Collaborators) (s : Store) :
  let label := result_of (getProgressButtonLabel env s) in
  let c := current (flash s) in
  store_of (getProgressButtonLabel env s) = s
  /\ trace_of (getProgressButtonLabel env s) = []
  /\ (isDownloading (flash s) = false \/ isFlashing (flash s) = false ->
        label = "Flash!")
  /\ (isDownloading (flash s) = true -> isFlashing (flash s) = true ->
        (percentage c = 0%Z -> truthy_num (speed c) = false ->
           label = "Starting...")
        /\ (percentage c = 100%Z -> type c = Some "check" ->
            unmountOnSuccess env = true ->
              label = "Unmounting...")
        /\ (percentage c = 100%Z ->
            type c <> Some "check" \/ unmountOnSuccess env = false ->
              label = "Finishing...")
        /\ (percentage c <> 100%Z ->
            percentage c <> 0%Z \/ truthy_num (speed c) = true ->
              (type c = Some "check" ->
                 label = (show_number (percentage c) ++ "% Validating...")%string)
              /\ (type c = Some "download" ->
                    label = (show_number (percentage c) ++ "% Downloading...")%string)
              /\ (type c <> Some "check" -> type c <> Some "download" ->
                    label = (show_number (percentage c) ++ "%")%string))).
Proof.
  intros label c. subst label. rewrite getProgressButtonLabel_run.
  unfold result_of, store_of, trace_of; simpl.
  split; [reflexivity|]. split; [reflexivity|].
  unfold progressButtonLabel, PERCENTAGE_MINIMUM, PERCENTAGE_MAXIMUM. fold c.
  split.
  - intros [-> | Hf]; [reflexivity|].
    rewrite Hf. destruct (isDownloading (flash s)); reflexivity.
  - intros -> ->. simpl.
    split; [| split; [| split ]].
    + intros -> ->. reflexivity.
    + intros H100 Hcheck ->. rewrite H100, Hcheck. reflexivity.
    + intros H100 Hno. rewrite H100. simpl.
      destruct Hno as [Hno | ->].
      * apply strict_eq_false in Hno. rewrite Hno. reflexivity.
      * rewrite andb_false_r. reflexivity.
    + intros Hn100 Hstart.
      assert (Hmin : ((percentage c =? 0)%Z && negb (truthy_num (speed c))) = false).
      { destruct Hstart as [Hn0 | ->].
        - apply Z.eqb_neq in Hn0. rewrite Hn0. reflexivity.
        - apply andb_false_r. }
      apply Z.eqb_neq in Hn100. rewrite Hmin, Hn100.
      split; [| split ].
      * intros ->. reflexivity.
      * intros ->. reflexivity.
      * intros Hc Hd. apply strict_eq_false in Hc, Hd. rewrite Hc, Hd. reflexivity.
Qed.

Lemma getProgressButtonLabel_cases_witness :
  let env := example_env (Resolved false) writes_well in
  result_of (getProgressButtonLabel env idle) = "Flash!"
  /\ result_of (getProgressButtonLabel env
       (in_progress true true (mkProgress 0 0 None None))) = "Starting..."
  /\ result_of (getProgressButtonLabel env
       (in_progress true true (mkProgress 100 0 (Some 5%Z) (Some "check")))) = "Unmounting..."
  /\ result_of (getProgressButtonLabel env
       (in_progress true true (mkProgress 100 0 (Some 5%Z) (Some "write")))) = "Finishing..."
  /\ result_of (getProgressButtonLabel env
       (in_progress true true (mkProgress 45 12 (Some 4096%Z) (Some "download"))))
     = "45% Downloading...".
Proof.
  intros env.
  split; [| split; [| split; [| split ]]].
  - apply (getProgressButtonLabel_cases env idle). left. reflexivity.
  - apply (getProgressButtonLabel_cases env
             (in_progress true true (mkProgress 0 0 None None))); reflexivity.
  - apply (getProgressButtonLabel_cases env
             (in_progress true true (mkProgress 100 0 (Some 5%Z) (Some "check"))));
      reflexivity.
  - apply (getProgressButtonLabel_cases env
             (in_progress true true (mkProgress 100 0 (Some 5%Z) (Some "write"))));
      try reflexivity.
    left. discriminate.
  - apply (getProgressButtonLabel_cases env
             (in_progress true true (mkProgress 45 12 (Some 4096%Z) (Some "download"))));
      try reflexivity.
    + discriminate.
    + left. discriminate.
Defined.

(** C8, as the spec has it, fails: while flashing at percentage 0 with
    no speed, but not downloading, the label is "Flash!" and not
    "Starting...". *)
Lemma getProgressButtonLabel_flashing_not_downloading :
  let env := example_env (Resolved false) writes_well in
  let s := in_progress false true (mkProgress 0 0 None (Some "write")) in
  isFlashing (flash s) = true
  /\ percentage (current (flash s)) = 0%Z
  /\ truthy_num (speed (current (flash s))) = false
  /\ result_of (getProgressButtonLabel env s) = "Flash!"
  /\ result_of (getProgressButtonLabel env s) <> "Starting...".
Proof.
  repeat split; try reflexivity. discriminate.
Qed.

(** The labels the spec lists as testable. *)
Example label_validating :
  progressButtonLabel (example_env (Resolved false) writes_well)
    (mkFlash true true false (mkProgress 7 3 (Some 1%Z) (Some "check")))
  = "7% Validating...".
Proof. reflexivity. Qed.

Example label_plain :
  progressButtonLabel (example_env (Resolved false) writes_well)
    (mkFlash true true false (mkProgress 50 3 (Some 1%Z) (Some "write")))
  = "50%".
Proof. reflexivity. Qed.

(** ** The flash controller: structure of a session *)

Section ControllerFacts.

Context (env : Collaborators).

Lemma flashImageToDrive_guarded (image : ImageSource) (drive : Drive) (s : Store) :
  isFlashing (flash s) = true ->
  flashImageToDrive env image drive s = (tt, s, []).
Proof.
  intros Hbusy. unfold flashImageToDrive, bind, get_flash.
  rewrite Hbusy. reflexivity.
Qed.

Lemma flashImageToDrive_split (image : ImageSource) (drive : Drive) (s : Store) :
  isFlashing (flash s) = false ->
  flashImageToDrive env image drive s =
    (emit ScannerStop ;;
     prepared <- prepare env image ;;
     match prepared with
     | Resolved res => conclude env res drive
     | _ => ret tt
     end) s.
Proof.
  intros Hidle.
  unfold flashImageToDrive, prepare, conclude, bind, get_flash, emit, ret.
  rewrite Hidle.
  destruct (downloadImageIfNeeded env image s) as [[d s1] t1].
  destruct d as [retPath | r | ]; simpl; rewrite ?Hidle;
    try (rewrite ?app_nil_r; reflexivity).
  destruct (selectImageByPath env retPath s1) as [[sel s2] t2].
  destruct sel as [res | r | ]; simpl; rewrite ?Hidle;
    try (rewrite ?app_nil_r; reflexivity).
  destruct (ImageWriterService_flash env (path res) drive s2) as [[fl s3] t3].
  destruct fl as [[u | error | ] | thrown]; simpl; rewrite ?Hidle;
    try (rewrite ?app_nil_r, <- ?app_assoc; reflexivity).
  - destruct (onFlashed env res drive s3) as [[u' s4] t4]; simpl.
    repeat rewrite <- app_assoc. reflexivity.
  - destruct (onFlashFailed env res drive error s3) as [[u' s4] t4]; simpl.
    repeat rewrite <- app_assoc. reflexivity.
Qed.

Lemma last_cons {A : Type} (a d : A) (l : list A) : last (a :: l) d = last l a.
Proof.
  revert a d. induction l as [| b l IH]; intros a d; [reflexivity|].
  change (last (a :: b :: l) d) with (last (b :: l) d).
  rewrite (IH b d), (IH b a). reflexivity.
Qed.

(** The ticks of a transfer publish one download record each and move
    nothing but the current progress record. *)
Lemma forEach_onProgress_run (l : list Tick) (s : Store) :
  forEach onProgress l s =
    (tt,
     mkStore (mkFlash (isFlashing (flash s)) (isDownloading (flash s))
                      (lastCancelled (flash s))
                      (last (map progressOfTick l) (current (flash s))))
             (selection s) (imagePath s),
     map (fun t => mkStamped (SetProgressState (progressOfTick t))
                             (isFlashing (flash s))) l).
Proof.
  revert s. induction l as [| t l IH]; intros s.
  - simpl. unfold ret. rewrite flash_eta, store_eta. reflexivity.
  - change (map progressOfTick (t :: l))
      with (progressOfTick t :: map progressOfTick l).
    rewrite last_cons.
    cbn [forEach]. unfold bind at 1.
    unfold onProgress at 1. run.
    rewrite IH. reflexivity.
Qed.

(** The writer's actions move the flash state only. *)
Lemma forEach_writerAction_spec (acts : list WriterAction) (s : Store) :
  selection (store_of (forEach writerAction acts s)) = selection s
  /\ imagePath (store_of (forEach writerAction acts s)) = imagePath s
  /\ isFlashing (flash (store_of (forEach writerAction acts s))) =
       flag_after acts (isFlashing (flash s))
  /\ Forall (fun x => writer_event (ev x) = true)
            (trace_of (forEach writerAction acts s)).
Proof.
  revert s. induction acts as [| a acts IH]; intros s.
  - simpl. repeat split. constructor.
  - cbn [forEach]. unfold bind at 1 2 3 4.
    destruct (writerAction a s) as [[u s1] t1] eqn:Hstep.
    specialize (IH s1).
    destruct (forEach writerAction acts s1) as [[u' s2] t2].
    unfold store_of, trace_of in *. simpl in *.
    destruct IH as (Hsel & Hpath & Hflag & Htrace).
    destruct a as [| r | ph pc e sp]; unfold writerAction in Hstep;
      run; injection Hstep as <- <- <-; simpl in *;
      (repeat split; [assumption | assumption | assumption |]);
      repeat (constructor; [ try (destruct ph); reflexivity |]); assumption.
Qed.

End ControllerFacts.

Lemma events_stamp (b : bool) (l : list Event) : events (stamp b l) = l.
Proof.
  unfold events, stamp. rewrite map_map. simpl. apply map_id.
Qed.

Lemma count_none (f : Event -> bool) (t : Trace) :
  (forall x, In x t -> f (ev x) = false) -> count f t = 0.
Proof.
  unfold count, events. induction t as [| x t IH]; intros Hnone; [reflexivity|].
  simpl. rewrite (Hnone x (or_introl eq_refl)).
  apply IH. intros y Hy. apply Hnone. right. exact Hy.
Qed.

Lemma modal_messages_app (t1 t2 : Trace) :
  modal_messages (t1 ++ t2) = modal_messages t1 ++ modal_messages t2.
Proof. unfold modal_messages. rewrite events_app. apply flat_map_app. Qed.

Lemma reports_app (t1 t2 : Trace) : reports (t1 ++ t2) = reports t1 ++ reports t2.
Proof. unfold reports. rewrite events_app. apply flat_map_app. Qed.

Lemma flat_map_none {A B : Type} (f : A -> list B) (l : list A) :
  (forall x, In x l -> f x = []) -> flat_map f l = [].
Proof.
  induction l as [| x l IH]; intros Hnone; [reflexivity|].
  simpl. rewrite (Hnone x (or_introl eq_refl)). simpl.
  apply IH. intros y Hy. apply Hnone. right. exact Hy.
Qed.

Section SessionFacts.

Context (env : Collaborators).

Lemma showFlashError_run (error : JsError) (s : Store) :
  showFlashError error s =
    (tt, s, stamp (isFlashing (flash s)) (flash_error_events error)).
Proof.
  unfold showFlashError, flash_error_events.
  destruct (strict_eq (code error) "EVALIDATION"); [reflexivity|].
  destruct (strict_eq (code error) "EUNPLUGGED"); [reflexivity|].
  destruct (strict_eq (code error) "EIO"); [reflexivity|].
  destruct (strict_eq (code error) "ENOSPC"); reflexivity.
Qed.

(** The writer's phase and the handlers, spelled out. *)
Lemma conclude_run (res : Image) (drive : Drive) (s : Store) :
  let w := writer env (path res) drive in
  let acted := forEach writerAction (w_actions w) s in
  conclude env res drive s =
    (tt, store_of acted,
     mkStamped (WriterFlash (path res) drive) (isFlashing (flash s))
     :: trace_of acted
     ++ stamp (isFlashing (flash (store_of acted)))
              (handler_events env (path res) drive (w_outcome w)
                 (lastCancelled (flash (store_of acted))))).
Proof.
  intros w acted. subst w acted.
  unfold conclude, ImageWriterService_flash, handler_events,
         onFlashed, onFlashFailed.
  unfold bind at 1 2 3. unfold emit at 1. simpl.
  destruct (forEach writerAction (w_actions (writer env (path res) drive)) s)
    as [[u s1] t1].
  unfold store_of, trace_of. simpl.
  destruct (w_outcome (writer env (path res) drive)) as [| error | error |].
  - run. destruct (lastCancelled (flash s1)); simpl; rewrite ?app_nil_r;
      reflexivity.
  - unfold bind. unfold emit at 1 2. simpl.
    rewrite showFlashError_run. simpl.
    unfold emit, ret, stamp. simpl. rewrite !map_app, ?app_nil_r. reflexivity.
  - unfold ret. simpl. rewrite ?app_nil_r. reflexivity.
  - unfold ret. simpl. rewrite ?app_nil_r. reflexivity.
Qed.

(** A local image is handed on as it is. *)
Lemma downloadImageIfNeeded_local (image : ImageSource) (s : Store) :
  is_local image = true ->
  exists p, src_path image = Some p
    /\ downloadImageIfNeeded env image s =
         (Resolved p, mkStore (flash s) (selection s) (Some image), []).
Proof.
  unfold is_local, truthy_str, downloadImageIfNeeded. intros Hlocal.
  destruct (src_path image) as [p|]; [| discriminate ].
  exists p. split; [reflexivity|].
  unfold bind, set_imagePath. rewrite Hlocal. reflexivity.
Qed.

(** The transfer of a remote image, spelled out. *)
Lemma fetchImage_run (image : ImageSource) (s : Store) :
  let tr := transfer env image in
  fetchImage env image s =
    (if ends tr then Resolved "./os.zip" else Pending,
     mkStore (mkFlash (negb (ends tr)) (isDownloading (flash s))
                (if ends tr then false else lastCancelled (flash s))
                (last (map progressOfTick (ticks tr)) (current (flash s))))
             (selection s) (imagePath s),
     mkStamped SetFlashingFlag (isFlashing (flash s))
     :: stamp true ([Request image; PipeToFile "os.zip"]
                    ++ map (fun t => SetProgressState (progressOfTick t)) (ticks tr)
                    ++ (if ends tr
                        then [UnsetFlashingFlag (mkResults false true)]
                        else []))).
Proof.
  intros tr. subst tr. unfold fetchImage.
  unfold bind at 1 2 3 4. run.
  rewrite forEach_onProgress_run. unfold stamp. simpl.
  rewrite map_app, map_map. simpl.
  destruct (ends (transfer env image)); simpl; rewrite ?app_nil_r; reflexivity.
Qed.

Lemma downloadImageIfNeeded_remote (image : ImageSource) (s : Store) :
  is_local image = false ->
  downloadImageIfNeeded env image s =
    fetchImage env image (mkStore (flash s) (selection s) (Some image)).
Proof.
  unfold is_local, truthy_str, downloadImageIfNeeded. intros Hremote.
  unfold bind, set_imagePath.
  destruct (src_path image) as [p|]; [rewrite Hremote|]; simpl;
    destruct (fetchImage env image _) as [[r s1] t1]; reflexivity.
Qed.

(** Selection leaves the flash state alone; each of its calls is a
    selector call made under the flag it started with, and it reports
    nothing when it resolves. *)
Lemma selectImageByPath_spec (p : string) (s : Store) :
  flash (store_of (selectImageByPath env p s)) = flash s
  /\ Forall (fun x => selector_event (ev x) = true
                      /\ flashing x = isFlashing (flash s))
            (trace_of (selectImageByPath env p s))
  /\ (forall res, result_of (selectImageByPath env p s) = Resolved res ->
        reports (trace_of (selectImageByPath env p s)) = []).
Proof.
  unfold selectImageByPath, selectImage, riskMessage, WarningModalService_display.
  destruct (getImageMetadata env p) as [md | error | ].
  - destruct (isSupportedImage env (path md));
      [ destruct (looksLikeWindowsImage env (path md));
        [| destruct (hasMBR md) ] |];
      run; try (destruct (warningAnswer env _) as [[|] | e | ]); simpl;
      (split; [reflexivity |
       split; [repeat constructor | intros res Hres; try discriminate Hres; reflexivity]]).
  - run. split; [reflexivity|]. split; [repeat constructor | discriminate].
  - run. split; [reflexivity|]. split; [repeat constructor | discriminate].
Qed.

End SessionFacts.

Lemma selector_not_during_transfer (e : Event) :
  selector_event e = true -> during_transfer e = false.
Proof. destruct e; simpl; congruence. Qed.

Lemma selector_not_writer_flash (e : Event) :
  selector_event e = true -> is_writer_flash e = false.
Proof. destruct e; simpl; congruence. Qed.

Lemma transfer_not_writer_flash (e : Event) :
  transfer_event e = true -> is_writer_flash e = false.
Proof. destruct e; simpl; congruence. Qed.

Section PrepareFacts.

Context (env : Collaborators).

(** The trace of a transfer: the flag is raised by its first call and
    is up at every later one. *)
Lemma fetch_trace_profile (image : ImageSource) (b : bool) (tail : list Event) :
  Forall (fun e => transfer_event e = true /\ during_transfer e = true) tail ->
  Forall (fun x => (transfer_event (ev x) || selector_event (ev x)) = true
                   /\ flashing x = during_transfer (ev x))
         (stamp true ([Request image; PipeToFile "os.zip"]
                      ++ map (fun t => SetProgressState (progressOfTick t))
                             (ticks (transfer env image))
                      ++ tail)).
Proof.
  intros Htail. unfold stamp. apply Forall_map. simpl.
  constructor; [split; reflexivity|].
  constructor; [split; reflexivity|].
  apply Forall_app. split.
  - apply Forall_map. apply Forall_forall. intros t _. split; reflexivity.
  - eapply Forall_impl; [| exact Htail ].
    intros e [Ht Hd]. simpl. rewrite Ht, Hd. split; reflexivity.
Qed.

(** All that precedes the writer: the flag is up exactly at the calls
    of an ongoing transfer, and at the end it is up only if a transfer
    was started and never ended. *)
Lemma prepare_spec (image : ImageSource) (s : Store) :
  isFlashing (flash s) = false ->
  isFlashing (flash (store_of (prepare env image s))) =
    negb (is_local image || ends (transfer env image))
  /\ Forall (fun x => (transfer_event (ev x) || selector_event (ev x)) = true
                      /\ flashing x = during_transfer (ev x))
            (trace_of (prepare env image s))
  /\ (forall res, result_of (prepare env image s) = Resolved res ->
        reports (trace_of (prepare env image s)) = []
        /\ isFlashing (flash (store_of (prepare env image s))) = false)
  /\ (is_local image = true ->
        Forall (fun x => selector_event (ev x) = true)
               (trace_of (prepare env image s))).
Proof.
  intros Hidle. unfold prepare, bind.
  destruct (is_local image) eqn:Hlocal.
  - destruct (downloadImageIfNeeded_local env image s Hlocal) as (p & _ & Hrun).
    rewrite Hrun.
    pose proof (selectImageByPath_spec env p
                  (mkStore (flash s) (selection s) (Some image))) as Hsel.
    destruct (selectImageByPath env p _) as [[r s1] t1].
    unfold store_of, trace_of, result_of in *. simpl in *.
    destruct Hsel as (Hflash & Htrace & Hreports).
    rewrite Hflash, Hidle.
    split; [reflexivity|]. split; [| split ].
    + eapply Forall_impl; [| exact Htrace ].
      intros x [Hsel Hstamp]. rewrite Hsel, orb_true_r.
      rewrite (selector_not_during_transfer _ Hsel), Hstamp, Hidle.
      split; reflexivity.
    + intros res Hres. split; [exact (Hreports res Hres) | reflexivity].
    + intros _. eapply Forall_impl; [| exact Htrace ]. intros x [Hsel _]. exact Hsel.
  - rewrite (downloadImageIfNeeded_remote env image s Hlocal), fetchImage_run.
    cbn [flash selection imagePath]. rewrite Hidle.
    destruct (ends (transfer env image)) eqn:Hends; cbv beta iota.
    + match goal with
      | |- context [selectImageByPath env "./os.zip" ?s0] =>
          pose proof (selectImageByPath_spec env "./os.zip" s0) as Hsel;
          destruct (selectImageByPath env "./os.zip" s0) as [[r s1] t1]
      end.
      unfold store_of, trace_of, result_of in *. cbn [fst snd] in *.
      cbn [flash isFlashing negb] in Hsel.
      destruct Hsel as (Hflash & Htrace & Hreports).
      rewrite Hflash. cbn [isFlashing orb negb].
      split; [reflexivity|]. split; [| split ].
      * change (?a :: ?l ++ t1) with ((a :: l) ++ t1).
        apply Forall_app. split.
        -- constructor; [split; reflexivity|].
           apply (fetch_trace_profile image true).
           repeat constructor.
        -- eapply Forall_impl; [| exact Htrace ].
           intros x [Hsel Hstamp]. rewrite Hsel, orb_true_r.
           rewrite (selector_not_during_transfer _ Hsel), Hstamp.
           split; reflexivity.
      * intros res Hres. specialize (Hreports res Hres).
        split; [| reflexivity ].
        change (?a :: ?l ++ t1) with ((a :: l) ++ t1).
        rewrite reports_app, Hreports, app_nil_r.
        change (reports (?a :: ?l)) with (reports [a] ++ reports l).
        unfold reports. rewrite events_stamp. simpl.
        rewrite flat_map_app. simpl. rewrite app_nil_r.
        apply flat_map_none. intros e He.
        apply in_map_iff in He. destruct He as (t & <- & _). reflexivity.
      * discriminate.
    + unfold store_of, trace_of, result_of, ret. cbn [fst snd].
      rewrite !app_nil_r. cbn [flash isFlashing orb negb].
      split; [reflexivity|]. split; [| split ].
      * constructor; [split; reflexivity|].
        pose proof (fetch_trace_profile image true []) as Hprofile.
        rewrite app_nil_r in Hprofile.
        apply Hprofile. constructor.
      * discriminate.
      * discriminate.
Qed.

End PrepareFacts.

Lemma flash_error_events_class (error : JsError) :
  Forall (fun e => handler_event e = true) (flash_error_events error).
Proof.
  unfold flash_error_events.
  destruct (strict_eq (code error) "EVALIDATION"); [repeat constructor|].
  destruct (strict_eq (code error) "EUNPLUGGED"); [repeat constructor|].
  destruct (strict_eq (code error) "EIO"); [repeat constructor|].
  destruct (strict_eq (code error) "ENOSPC"); repeat constructor.
Qed.

Lemma handler_events_class env imagePath drive outcome wasCancelled :
  Forall (fun e => handler_event e = true)
         (handler_events env imagePath drive outcome wasCancelled).
Proof.
  unfold handler_events.
  destruct outcome as [| error | error |].
  - destruct wasCancelled; repeat constructor.
  - apply Forall_app. split; [repeat constructor|].
    apply Forall_app. split.
    + apply flash_error_events_class.
    + repeat constructor.
  - constructor.
  - constructor.
Qed.

Section RunFacts.

Context (env : Collaborators).

Lemma flashImageToDrive_run (image : ImageSource) (drive : Drive) (s : Store) :
  isFlashing (flash s) = false ->
  flashImageToDrive env image drive s =
    (tt, session_store env image drive s, session_trace env image drive s).
Proof.
  intros Hidle. rewrite (flashImageToDrive_split env image drive s Hidle).
  unfold session_store, session_trace.
  pose proof (prepare_spec env image s Hidle) as (_ & _ & Hres & _).
  unfold bind at 1 2. unfold emit. cbn [fst snd app].
  rewrite Hidle.
  destruct (prepare env image s) as [[r s1] t1].
  unfold result_of, store_of, trace_of in *. cbn [fst snd] in *.
  destruct r as [res | reason | ].
  - destruct (Hres res eq_refl) as [_ Hflag].
    rewrite conclude_run. cbv zeta. rewrite Hflag.
    unfold store_of, trace_of. cbn [fst snd]. reflexivity.
  - unfold ret. rewrite !app_nil_r. reflexivity.
  - unfold ret. rewrite !app_nil_r. reflexivity.
Qed.

End RunFacts.

(** ** Reading a session's trace *)

Lemma in_events_class (cls : Event -> bool) (t : Trace) (e : Event) :
  Forall (fun x => cls (ev x) = true) t -> In e (events t) -> cls e = true.
Proof.
  intros Hall Hin. unfold events in Hin. apply in_map_iff in Hin.
  destruct Hin as (x & <- & Hx).
  rewrite Forall_forall in Hall. exact (Hall x Hx).
Qed.

Lemma flat_map_class {B : Type} (g : Event -> list B) (cls : Event -> bool) (t : Trace) :
  (forall e, cls e = true -> g e = []) ->
  Forall (fun x => cls (ev x) = true) t ->
  flat_map g (events t) = [].
Proof.
  intros Hg Hall. apply flat_map_none. intros e He.
  apply Hg. exact (in_events_class cls t e Hall He).
Qed.

Lemma Forall_stamp (P : Event -> Prop) (b : bool) (l : list Event) :
  Forall P l -> Forall (fun x => P (ev x)) (stamp b l).
Proof.
  intros Hall. unfold stamp. apply Forall_map. simpl. exact Hall.
Qed.

Lemma filter_keep (f : Event -> bool) (l : list Event) :
  filter f l = flat_map (keep f) l.
Proof.
  induction l as [| e l IH]; [reflexivity|].
  simpl. unfold keep at 1. destruct (f e); simpl; rewrite IH; reflexivity.
Qed.

Section TraceFacts.

Context (env : Collaborators).

(** What is collected from a session's trace, phase by phase. *)
Lemma session_trace_flat_map {B : Type} (g : Event -> list B)
    (image : ImageSource) (drive : Drive) (s : Store) :
  flat_map g (events (session_trace env image drive s)) =
    g ScannerStop
    ++ flat_map g (events (trace_of (prepare env image s)))
    ++ match result_of (prepare env image s) with
       | Resolved res =>
           let w := writer env (path res) drive in
           let acted := forEach writerAction (w_actions w)
                                (store_of (prepare env image s)) in
           g (WriterFlash (path res) drive)
           ++ flat_map g (events (trace_of acted))
           ++ flat_map g (handler_events env (path res) drive (w_outcome w)
                            (lastCancelled (flash (store_of acted))))
       | _ => []
       end.
Proof.
  unfold session_trace.
  change (events (?x :: ?l)) with (ev x :: events l).
  rewrite events_app. cbn [flat_map ev]. rewrite flat_map_app.
  destruct (result_of (prepare env image s)) as [res | r | ]; [| reflexivity ..].
  cbv zeta.
  change (events (?x :: ?l)) with (ev x :: events l).
  rewrite events_app, events_stamp. cbn [flat_map ev].
  rewrite flat_map_app. reflexivity.
Qed.

(** The writer's own actions give nothing to a collector that ignores
    them. *)
Lemma writer_actions_collect_nothing {B : Type} (g : Event -> list B)
    (acts : list WriterAction) (s : Store) :
  (forall e, writer_event e = true -> g e = []) ->
  flat_map g (events (trace_of (forEach writerAction acts s))) = [].
Proof.
  intros Hg. apply (flat_map_class g writer_event); [exact Hg|].
  apply forEach_writerAction_spec.
Qed.

(** The preparation makes no call outside the download and the
    selector. *)
Lemma prepare_collects_nothing {B : Type} (g : Event -> list B)
    (image : ImageSource) (s : Store) :
  isFlashing (flash s) = false ->
  (forall e, (transfer_event e || selector_event e) = true -> g e = []) ->
  flat_map g (events (trace_of (prepare env image s))) = [].
Proof.
  intros Hidle Hg.
  pose proof (prepare_spec env image s Hidle) as (_ & Hclass & _).
  apply (flat_map_class g (fun e => transfer_event e || selector_event e));
    [exact Hg|].
  eapply Forall_impl; [| exact Hclass ]. intros x [Hx _]. exact Hx.
Qed.

(** The writer is invoked only by a session that passed the guard and
    whose preparation resolved, and then with the selected image's
    path. *)
Lemma writer_invoked_inv (image : ImageSource) (drive : Drive) (s : Store)
    (p : string) (d : Drive) :
  In (WriterFlash p d) (events (trace_of (flashImageToDrive env image drive s))) ->
  isFlashing (flash s) = false
  /\ exists res, result_of (prepare env image s) = Resolved res
                 /\ p = path res /\ d = drive.
Proof.
  intros Hin.
  destruct (isFlashing (flash s)) eqn:Hflag.
  - rewrite (flashImageToDrive_guarded env image drive s Hflag) in Hin.
    destruct Hin.
  - split; [reflexivity|].
    rewrite (flashImageToDrive_run env image drive s Hflag) in Hin.
    unfold trace_of in Hin. cbn [snd] in Hin. unfold session_trace in Hin.
    change (events (?x :: ?l)) with (ev x :: events l) in Hin.
    rewrite events_app in Hin.
    destruct Hin as [Hin | Hin]; [discriminate Hin|].
    apply in_app_or in Hin. destruct Hin as [Hin | Hin].
    + pose proof (prepare_spec env image s Hflag) as (_ & Hclass & _).
      assert (Hcls : (transfer_event (WriterFlash p d)
                      || selector_event (WriterFlash p d)) = true).
      { apply (in_events_class (fun e => transfer_event e || selector_event e)
                 (trace_of (prepare env image s))); [| exact Hin ].
        eapply Forall_impl; [| exact Hclass ]. intros x [Hx _]. exact Hx. }
      discriminate Hcls.
    + destruct (result_of (prepare env image s)) as [res | r | ];
        [| destruct Hin | destruct Hin ].
      exists res. split; [reflexivity|].
      change (events (?x :: ?l)) with (ev x :: events l) in Hin.
      rewrite events_app, events_stamp in Hin.
      destruct Hin as [Hin | Hin].
      * injection Hin as -> ->. split; reflexivity.
      * exfalso. apply in_app_or in Hin. destruct Hin as [Hin | Hin].
        -- assert (Hcls : writer_event (WriterFlash p d) = true).
           { eapply in_events_class; [| exact Hin ].
             apply forEach_writerAction_spec. }
           discriminate Hcls.
        -- pose proof (handler_events_class env (path res) drive
                         (w_outcome (writer env (path res) drive))
                         (lastCancelled (flash (store_of
                            (forEach writerAction
                               (w_actions (writer env (path res) drive))
                               (store_of (prepare env image s))))))) as Hcls.
           rewrite Forall_forall in Hcls. specialize (Hcls _ Hin).
           discriminate Hcls.
Qed.

End TraceFacts.

Lemma reports_nil_no_report (t : Trace) (e : Event) (x : JsError) :
  reports t = [] -> In e (events t) -> e <> Report x.
Proof.
  intros Hnil Hin ->.
  assert (Hx : In x (reports t)).
  { unfold reports. apply in_flat_map. exists (Report x). split; [exact Hin|].
    left. reflexivity. }
  rewrite Hnil in Hx. destruct Hx.
Qed.

Section ReachedFacts.

Context (env : Collaborators).

(** What is collected from a session that reached the writer: beyond
    the scanner's stop and the writer's invocation, only what the
    handlers of the writer's promise give, for a collector that ignores
    the writer's own actions and the calls of download and selection
    (reports apart, of which a resolved selection has none). *)
Lemma reached_flat_map {B : Type} (g : Event -> list B)
    (image : ImageSource) (drive : Drive) (s : Store) (p : string) :
  In (WriterFlash p drive)
     (events (trace_of (flashImageToDrive env image drive s))) ->
  (forall e, (transfer_event e || selector_event e) = true ->
             (forall x, e <> Report x) -> g e = []) ->
  (forall e, writer_event e = true -> g e = []) ->
  flat_map g (events (trace_of (flashImageToDrive env image drive s))) =
    g ScannerStop
    ++ g (WriterFlash p drive)
    ++ flat_map g
         (handler_events env p drive (w_outcome (writer env p drive))
            (lastCancelled
               (flash (store_of (flashImageToDrive env image drive s))))).
Proof.
  intros Hin Hprep Hwriter.
  destruct (writer_invoked_inv env image drive s p drive Hin)
    as (Hidle & res & Hres & -> & _).
  rewrite (flashImageToDrive_run env image drive s Hidle).
  unfold trace_of at 1, store_of at 1. cbn [fst snd].
  rewrite session_trace_flat_map. unfold session_store. rewrite Hres. cbv zeta.
  rewrite (writer_actions_collect_nothing g _ _ Hwriter).
  pose proof (prepare_spec env image s Hidle) as (_ & Hclass & Hrep & _).
  destruct (Hrep res Hres) as [Hnone _].
  assert (Hpre : flat_map g (events (trace_of (prepare env image s))) = []).
  { apply flat_map_none. intros e He. apply Hprep.
    - apply (in_events_class (fun e => transfer_event e || selector_event e)
               (trace_of (prepare env image s))); [| exact He ].
      eapply Forall_impl; [| exact Hclass ]. intros x [Hx _]. exact Hx.
    - intros x. exact (reports_nil_no_report _ e x Hnone He). }
  rewrite Hpre. reflexivity.
Qed.

End ReachedFacts.

Lemma modal_of_flash_error_events (error : JsError) :
  exists m, flat_map modal_of (flash_error_events error) = [m].
Proof.
  unfold flash_error_events.
  destruct (strict_eq (code error) "EVALIDATION"); [eexists; reflexivity|].
  destruct (strict_eq (code error) "EUNPLUGGED"); [eexists; reflexivity|].
  destruct (strict_eq (code error) "EIO"); [eexists; reflexivity|].
  destruct (strict_eq (code error) "ENOSPC"); eexists; reflexivity.
Qed.

(** C4. For every writer rejection, exactly one flash-error message is
    shown, chosen by the error's code: 'EVALIDATION', 'EUNPLUGGED', 'EIO'
    and 'ENOSPC' show their own message (for 'ENOSPC' the
    not-enough-space one) and cause no diagnostic report; a code that is
    none of the four shows the generic flash-error message and causes
    exactly one report, of that error. Only the generic category is
    reported. *)
Theorem writer_rejection_classified
    (env : Collaborators) (image : ImageSource) (drive : Drive) (s : Store)
    (p : string) (error : JsError) :
  let t := trace_of (flashImageToDrive env image drive s) in
  In (WriterFlash p drive) (events t) ->
  w_outcome (writer env p drive) = WRejects error ->
  (exists m, modal_messages t = [m])
  /\ (code error = Some "ENOSPC" ->
        modal_messages t = [MsgNotEnoughSpaceInDrive] /\ reports t = [])
  /\ (code error = Some "EVALIDATION" ->
        modal_messages t = [MsgValidation] /\ reports t = [])
  /\ (code error = Some "EUNPLUGGED" ->
        modal_messages t = [MsgDriveUnplugged] /\ reports t = [])
  /\ (code error = Some "EIO" ->
        modal_messages t = [MsgInputOutput] /\ reports t = [])
  /\ (code error <> Some "EVALIDATION" -> code error <> Some "EUNPLUGGED" ->
      code error <> Some "EIO" -> code error <> Some "ENOSPC" ->
        modal_messages t = [MsgGenericFlashError] /\ reports t = [error])
  /\ (reports t <> [] -> modal_messages t = [MsgGenericFlashError]).
Proof.
  intros t Hin Hrejects. subst t.
  unfold modal_messages, reports.
  assert (Hmodal := reached_flat_map env modal_of image drive s p Hin).
  rewrite Hmodal by by_event_cases.
  assert (Hreport := reached_flat_map env report_of image drive s p Hin).
  rewrite Hreport; [| | by_event_cases ].
  2: { intros e; destruct e; simpl; intros Hc Hr; try reflexivity;
       try discriminate Hc; exfalso; exact (Hr _ eq_refl). }
  rewrite Hrejects. clear Hmodal Hreport.
  unfold handler_events. rewrite !flat_map_app. simpl.
  rewrite !app_nil_r.
  unfold flash_error_events.
  destruct (strict_eq (code error) "EVALIDATION") eqn:H1;
    [| destruct (strict_eq (code error) "EUNPLUGGED") eqn:H2;
       [| destruct (strict_eq (code error) "EIO") eqn:H3;
          [| destruct (strict_eq (code error) "ENOSPC") eqn:H4 ]]];
    rewrite ?strict_eq_true, ?strict_eq_false in *; simpl;
    (split; [eexists; reflexivity|]);
    repeat split; intros; try reflexivity; try congruence.
Qed.

Lemma writer_rejection_classified_witness :
  let env := example_env (Resolved false) (fails_with (Some "ENOSPC")) in
  let env' := example_env (Resolved false) (fails_with (Some "EBUSY")) in
  let t := trace_of (flashImageToDrive env (local "/images/rpi.img") sd_card idle) in
  let t' := trace_of (flashImageToDrive env' (local "/images/rpi.img") sd_card idle) in
  (modal_messages t = [MsgNotEnoughSpaceInDrive] /\ reports t = [])
  /\ (modal_messages t' = [MsgGenericFlashError]
      /\ reports t' = [mkError (Some "EBUSY") "write failed"]).
Proof.
  intros env env' t t'. split.
  - assert (Hin : In (WriterFlash "/images/rpi.img" sd_card) (events t))
      by (vm_compute; find_event).
    destruct (writer_rejection_classified env (local "/images/rpi.img") sd_card idle
                "/images/rpi.img" (mkError (Some "ENOSPC") "write failed")
                Hin eq_refl) as (_ & Hnospc & _).
    apply Hnospc. reflexivity.
  - assert (Hin : In (WriterFlash "/images/rpi.img" sd_card) (events t'))
      by (vm_compute; find_event).
    destruct (writer_rejection_classified env' (local "/images/rpi.img") sd_card idle
                "/images/rpi.img" (mkError (Some "EBUSY") "write failed")
                Hin eq_refl) as (_ & _ & _ & _ & _ & Hgeneric & _).
    apply Hgeneric; discriminate.
Defined.

Section NotificationFacts.

Context (env : Collaborators).

Lemma reached_filter (f : Event -> bool)
    (image : ImageSource) (drive : Drive) (s : Store) (p : string) :
  In (WriterFlash p drive)
     (events (trace_of (flashImageToDrive env image drive s))) ->
  (forall e, (transfer_event e || selector_event e) = true -> f e = false) ->
  (forall e, writer_event e = true -> f e = false) ->
  filter f (events (trace_of (flashImageToDrive env image drive s))) =
    keep f ScannerStop
    ++ keep f (WriterFlash p drive)
    ++ filter f
         (handler_events env p drive (w_outcome (writer env p drive))
            (lastCancelled
               (flash (store_of (flashImageToDrive env image drive s))))).
Proof.
  intros Hin Hprep Hwriter.
  rewrite !filter_keep.
  apply (reached_flat_map env (keep f) image drive s p Hin).
  - intros e He _. unfold keep. rewrite (Hprep e He). reflexivity.
  - intros e He. unfold keep. rewrite (Hwriter e He). reflexivity.
Qed.

Lemma flash_error_events_filter (f : Event -> bool) (error : JsError) :
  (forall m, f (ModalShow m) = false) -> (forall x, f (Report x) = false) ->
  filter f (flash_error_events error) = [].
Proof.
  intros Hm Hr. unfold flash_error_events.
  destruct (strict_eq (code error) "EVALIDATION"); [simpl; rewrite Hm; reflexivity|].
  destruct (strict_eq (code error) "EUNPLUGGED"); [simpl; rewrite Hm; reflexivity|].
  destruct (strict_eq (code error) "EIO"); [simpl; rewrite Hm; reflexivity|].
  destruct (strict_eq (code error) "ENOSPC"); simpl; rewrite ?Hm, ?Hr; reflexivity.
Qed.

End NotificationFacts.

(** C3, as the spec has it, fails: a session that is marked cancelled
    and whose writer rejects sends the failure notification. *)
Lemma cancelled_session_still_notifies_failure :
  let env := example_env (Resolved false) cancelled_then_fails in
  let r := flashImageToDrive env (local "/images/rpi.img") sd_card idle in
  lastCancelled (flash (store_of r)) = true
  /\ In (Notify "Oops! Looks like the flash failed."
                (MsgFlashFailure "rpi.img" sd_card) iconPath)
        (events (trace_of r))
  /\ count is_notify (trace_of r) <> 0.
Proof.
  split; [reflexivity|]. split.
  - vm_compute. find_event.
  - vm_compute. discriminate.
Qed.

(** ** Local images *)

Lemma writer_event_not_download (e : Event) :
  writer_event e = true -> is_download_progress e = false.
Proof.
  destruct e; simpl; try reflexivity; try discriminate.
  destruct (type p) as [ty|]; simpl; [| reflexivity ].
  intros Hty. apply orb_true_iff in Hty.
  destruct Hty as [Hty | Hty]; apply String.eqb_eq in Hty; subst ty; reflexivity.
Qed.

Section LocalFacts.

Context (env : Collaborators).

(** A session on a local image makes no call outside the selector, the
    writer and the handlers. *)
Lemma local_session_collects_nothing {B : Type} (g : Event -> list B)
    (image : ImageSource) (drive : Drive) (s : Store) :
  is_local image = true ->
  g ScannerStop = [] ->
  (forall q d, g (WriterFlash q d) = []) ->
  (forall e, selector_event e = true -> g e = []) ->
  (forall e, writer_event e = true -> g e = []) ->
  (forall e, handler_event e = true -> g e = []) ->
  flat_map g (events (trace_of (flashImageToDrive env image drive s))) = [].
Proof.
  intros Hlocal Hstop Hflash Hsel Hwriter Hhandler.
  destruct (isFlashing (flash s)) eqn:Hflag.
  - rewrite (flashImageToDrive_guarded env image drive s Hflag). reflexivity.
  - rewrite (flashImageToDrive_run env image drive s Hflag).
    unfold trace_of at 1. cbn [snd].
    rewrite session_trace_flat_map, Hstop.
    pose proof (prepare_spec env image s Hflag) as (_ & _ & _ & Hclass).
    rewrite (flat_map_class g selector_event _ Hsel (Hclass Hlocal)).
    destruct (result_of (prepare env image s)) as [res | r | ]; [| reflexivity ..].
    cbv zeta. rewrite Hflash, (writer_actions_collect_nothing g _ _ Hwriter).
    cbn [app]. apply flat_map_none. intros e He.
    apply Hhandler.
    pose proof (handler_events_class env (path res) drive
                  (w_outcome (writer env (path res) drive))
                  (lastCancelled (flash (store_of
                     (forEach writerAction
                        (w_actions (writer env (path res) drive))
                        (store_of (prepare env image s))))))) as Hcls.
    rewrite Forall_forall in Hcls. exact (Hcls e He).
Qed.

End LocalFacts.

(** C9. For every session whose candidate image already has a local
    path, [downloadImageIfNeeded] resolves at once with that path, makes
    no call and leaves the flash state as it was; in the whole session no
    progress record of type 'download' is published, no request is made
    and nothing is piped into the staging file. *)
Theorem local_image_skips_download
    (env : Collaborators) (image : ImageSource) (drive : Drive) (s : Store) :
  is_local image = true ->
  (exists p, src_path image = Some p
     /\ downloadImageIfNeeded env image s =
          (Resolved p, mkStore (flash s) (selection s) (Some image), []))
  /\ count is_download_progress (trace_of (flashImageToDrive env image drive s)) = 0
  /\ count is_transfer (trace_of (flashImageToDrive env image drive s)) = 0.
Proof.
  intros Hlocal. split; [exact (downloadImageIfNeeded_local env image s Hlocal)|].
  unfold count. rewrite !filter_keep.
  split.
  - rewrite (local_session_collects_nothing env (keep is_download_progress)
               image drive s Hlocal); try reflexivity;
      try (intros e He; unfold keep);
      [ destruct e; try discriminate He; reflexivity
      | rewrite (writer_event_not_download e He); reflexivity
      | destruct e; try discriminate He; reflexivity ].
  - rewrite (local_session_collects_nothing env (keep is_transfer)
               image drive s Hlocal); try reflexivity;
      intros e He; unfold keep; destruct e; try discriminate He; reflexivity.
Qed.

Lemma local_image_skips_download_witness :
  let env := example_env (Resolved false) writes_well in
  let image := local "/images/rpi.img" in
  (exists p, src_path image = Some p
     /\ downloadImageIfNeeded env image idle =
          (Resolved p, mkStore (flash idle) (selection idle) (Some image), []))
  /\ count is_download_progress (trace_of (flashImageToDrive env image sd_card idle)) = 0
  /\ count is_transfer (trace_of (flashImageToDrive env image sd_card idle)) = 0.
Proof.
  intros env image.
  apply (local_image_skips_download env image sd_card idle).
  reflexivity.
Defined.

(** A remote image, by contrast, is requested, piped into the staging
    file and reported tick by tick. *)
Example remote_image_is_downloaded :
  let env := example_env (Resolved false) writes_well in
  let t := trace_of (flashImageToDrive env remote sd_card idle) in
  count is_download_progress t = 4 /\ count is_transfer t = 2
  /\ map percentage
       (flat_map (fun e => match e with
                           | SetProgressState p =>
                               if strict_eq (type p) "download" then [p] else []
                           | _ => []
                           end) (events t))
     = [0; 10; 45; 100]%Z.
Proof. repeat split; reflexivity. Qed.

(** ** The flashing flag along a session *)

Lemma before_writer_app (pre post : Trace) :
  Forall (fun x => is_writer_flash (ev x) = false) pre ->
  before_writer (pre ++ post) = pre ++ before_writer post.
Proof.
  induction pre as [| x pre IH]; intros Hpre; [reflexivity|].
  inversion Hpre as [| y l Hx Hrest]; subst.
  simpl. rewrite Hx, (IH Hrest). reflexivity.
Qed.

Lemma handler_not_writer_flash (e : Event) :
  handler_event e = true -> is_writer_flash e = false.
Proof. destruct e; simpl; congruence. Qed.

Lemma writer_event_not_writer_flash (e : Event) :
  writer_event e = true -> is_writer_flash e = false.
Proof. destruct e; simpl; congruence. Qed.

(** C2, as the code has it. For every flash session (one that passed the
    entry guard, so [isFlashing] is false on entry): the session's first
    call, [driveScanner.stop()], is made with [isFlashing] false; of the
    calls made before the writer is invoked, [isFlashing] is true exactly
    at those of a transfer under way (the request, the pipe into the
    staging file, the progress records and the call that lowers the flag
    at the stream's end) and false at every other, so for a local image
    it is false from entry up to the writer's invocation; the writer is
    invoked with [isFlashing] false. If the writer is never invoked, the
    session leaves [isFlashing] true exactly when a transfer was started
    and never reached its end. If the writer is invoked, the session
    leaves [isFlashing] as the writer's own last raising or lowering of
    the flag left it: the handlers of the writer's promise do not touch
    it. *)
Theorem isFlashing_along_session
    (env : Collaborators) (image : ImageSource) (drive : Drive) (s : Store) :
  isFlashing (flash s) = false ->
  let r := flashImageToDrive env image drive s in
  hd_error (trace_of r) = Some (mkStamped ScannerStop false)
  /\ Forall (fun x => flashing x = during_transfer (ev x))
            (before_writer (trace_of r))
  /\ (forall x, In x (trace_of r) -> is_writer_flash (ev x) = true ->
        flashing x = false)
  /\ ((forall p, ~ In (WriterFlash p drive) (events (trace_of r))) ->
        isFlashing (flash (store_of r)) =
          negb (is_local image || ends (transfer env image)))
  /\ (forall p, In (WriterFlash p drive) (events (trace_of r)) ->
        isFlashing (flash (store_of r)) =
          flag_after (w_actions (writer env p drive)) false)
  /\ (is_local image = true ->
        Forall (fun x => flashing x = false) (before_writer (trace_of r))).
Proof.
  intros Hidle r.
  pose proof (prepare_spec env image s Hidle) as (Hflag & Hclass & Hres & Hlocal).
  assert (Hpre : Forall (fun x => is_writer_flash (ev x) = false)
                        (trace_of (prepare env image s))).
  { eapply Forall_impl; [| exact Hclass ]. intros x [Hx _].
    apply orb_true_iff in Hx. destruct Hx as [Hx | Hx].
    - exact (transfer_not_writer_flash _ Hx).
    - exact (selector_not_writer_flash _ Hx). }
  split; [| split; [| split; [| split; [| split ]]]].
  - subst r. rewrite (flashImageToDrive_run env image drive s Hidle). reflexivity.
  - subst r. rewrite (flashImageToDrive_run env image drive s Hidle).
    unfold trace_of at 1. cbn [snd]. unfold session_trace.
    cbn [before_writer ev is_writer_flash].
    rewrite (before_writer_app _ _ Hpre).
    constructor; [reflexivity|].
    apply Forall_app. split.
    + eapply Forall_impl; [| exact Hclass ]. intros x [_ Hx]. exact Hx.
    + destruct (result_of (prepare env image s)); simpl; constructor.
  - subst r. rewrite (flashImageToDrive_run env image drive s Hidle).
    unfold trace_of at 1. cbn [snd]. unfold session_trace.
    intros x Hin Hwf.
    destruct Hin as [<- | Hin]; [discriminate Hwf|].
    apply in_app_or in Hin. destruct Hin as [Hin | Hin].
    + rewrite Forall_forall in Hpre. rewrite (Hpre x Hin) in Hwf. discriminate Hwf.
    + destruct (result_of (prepare env image s)) as [res | reason | ];
        [| destruct Hin | destruct Hin ].
      destruct Hin as [<- | Hin]; [reflexivity|].
      exfalso. apply in_app_or in Hin. destruct Hin as [Hin | Hin].
      * pose proof (forEach_writerAction_spec
                      (w_actions (writer env (path res) drive))
                      (store_of (prepare env image s))) as (_ & _ & _ & Hw).
        rewrite Forall_forall in Hw.
        rewrite (writer_event_not_writer_flash _ (Hw x Hin)) in Hwf.
        discriminate Hwf.
      * unfold stamp in Hin. apply in_map_iff in Hin.
        destruct Hin as (e & <- & He). simpl in Hwf.
        pose proof (handler_events_class env (path res) drive
                      (w_outcome (writer env (path res) drive))
                      (lastCancelled (flash (store_of
                         (forEach writerAction
                            (w_actions (writer env (path res) drive))
                            (store_of (prepare env image s))))))) as Hcls.
        rewrite Forall_forall in Hcls.
        rewrite (handler_not_writer_flash _ (Hcls e He)) in Hwf.
        discriminate Hwf.
  - subst r. rewrite (flashImageToDrive_run env image drive s Hidle).
    unfold trace_of, store_of. cbn [fst snd].
    unfold session_trace, session_store.
    intros Hnever.
    destruct (result_of (prepare env image s)) as [res | reason | ];
      [| exact Hflag | exact Hflag ].
    exfalso. apply (Hnever (path res)).
    change (events (?x :: ?l)) with (ev x :: events l).
    right. rewrite events_app. apply in_or_app. right. left. reflexivity.
  - intros p Hin. subst r.
    destruct (writer_invoked_inv env image drive s p drive Hin)
      as (_ & res & Hresolved & -> & _).
    rewrite (flashImageToDrive_run env image drive s Hidle).
    unfold store_of at 1. cbn [fst snd].
    unfold session_store. rewrite Hresolved.
    pose proof (forEach_writerAction_spec
                  (w_actions (writer env (path res) drive))
                  (store_of (prepare env image s))) as (_ & _ & Hw & _).
    rewrite Hw. destruct (Hres res Hresolved) as [_ ->]. reflexivity.
  - intros Hloc. subst r. rewrite (flashImageToDrive_run env image drive s Hidle).
    unfold trace_of at 1. cbn [snd]. unfold session_trace.
    cbn [before_writer ev is_writer_flash].
    rewrite (before_writer_app _ _ Hpre).
    constructor; [reflexivity|].
    apply Forall_app. split.
    + specialize (Hlocal Hloc). rewrite Forall_forall in *.
      intros x Hx. destruct (Hclass x Hx) as [_ Hstamp]. rewrite Hstamp.
      apply selector_not_during_transfer. exact (Hlocal x Hx).
    + destruct (result_of (prepare env image s)); simpl; constructor.
Qed.

Lemma isFlashing_along_session_witness :
  let env := example_env (Resolved false) writes_well in
  let r := flashImageToDrive env remote sd_card idle in
  hd_error (trace_of r) = Some (mkStamped ScannerStop false)
  /\ Forall (fun x => flashing x = during_transfer (ev x))
            (before_writer (trace_of r))
  /\ (forall x, In x (trace_of r) -> is_writer_flash (ev x) = true ->
        flashing x = false)
  /\ ((forall p, ~ In (WriterFlash p sd_card) (events (trace_of r))) ->
        isFlashing (flash (store_of r)) =
          negb (is_local remote || ends (transfer env remote)))
  /\ (forall p, In (WriterFlash p sd_card) (events (trace_of r)) ->
        isFlashing (flash (store_of r)) =
          flag_after (w_actions (writer env p sd_card)) false)
  /\ (is_local remote = true ->
        Forall (fun x => flashing x = false) (before_writer (trace_of r))).
Proof.
  intros env r.
  apply (isFlashing_along_session env remote sd_card idle).
  reflexivity.
Defined.

(** C2, as the spec has it, fails: in a session on a local image that
    ends in success, the image is selected, committed and handed to the
    writer with [isFlashing] false, between the scanner's stop and its
    restart. *)
Lemma isFlashing_false_inside_local_session :
  let env := example_env (Resolved false) writes_well in
  let t := trace_of (flashImageToDrive env (local "/images/rpi.img") sd_card idle) in
  hd_error (events t) = Some ScannerStop
  /\ last (events t) ScannerStop = ScannerStart
  /\ In (mkStamped (SetImage rpi_img) false) (interior t)
  /\ In (mkStamped (WriterFlash "/images/rpi.img" sd_card) false) (interior t)
  /\ ~ (forall x, In x (interior t) -> flashing x = true).
Proof.
  intros env t.
  assert (Hset : In (mkStamped (SetImage rpi_img) false) (interior t))
    by (vm_compute; find_event).
  split; [reflexivity|]. split; [reflexivity|]. split; [exact Hset|].
  split; [vm_compute; find_event|].
  intros Hall. specialize (Hall _ Hset). discriminate Hall.
Qed.

(** ** The drive scanner *)

Section ScannerFacts.

Context (env : Collaborators).

(** A session that passed the guard stops the scanner once, and
    restarts it once if the writer was invoked and its promise settled;
    otherwise it does not restart it. *)
Lemma scanner_calls (image : ImageSource) (drive : Drive) (s : Store) :
  isFlashing (flash s) = false ->
  let t := trace_of (flashImageToDrive env image drive s) in
  count is_scanner_stop t = 1
  /\ count is_scanner_start t =
       match result_of (prepare env image s) with
       | Resolved res =>
           match w_outcome (writer env (path res) drive) with
           | WResolves => 1
           | WRejects _ => 1
           | WThrows _ => 0
           | WNeverSettles => 0
           end
       | _ => 0
       end.
Proof.
  intros Hidle t. subst t.
  rewrite (flashImageToDrive_run env image drive s Hidle).
  unfold trace_of at 1 2. cbn [snd]. unfold count.
  rewrite !filter_keep, !session_trace_flat_map.
  rewrite !(prepare_collects_nothing env _ image s Hidle) by by_event_cases.
  destruct (result_of (prepare env image s)) as [res | r | ];
    [| split; reflexivity | split; reflexivity ].
  cbv zeta.
  rewrite !writer_actions_collect_nothing by by_event_cases.
  rewrite <- !filter_keep. unfold handler_events.
  destruct (w_outcome (writer env (path res) drive)) as [| error | error |].
  - destruct (lastCancelled _); split; reflexivity.
  - rewrite !filter_app, !flash_error_events_filter by (intros; reflexivity).
    split; reflexivity.
  - split; reflexivity.
  - split; reflexivity.
Qed.

End ScannerFacts.

(** C1 on the code. A session that fails validation, and a session whose
    writer throws before returning its promise, both end with the drive
    scanner stopped once and never restarted: the restart is attached to
    the writer's promise only. Sessions whose writer settles restart
    it. *)
Theorem scanner_left_stopped :
  let invalid :=
    flashImageToDrive (example_env (Resolved false) writes_well)
                      (local "/home/me/notes.txt") sd_card idle in
  let thrown :=
    flashImageToDrive (example_env (Resolved false) throws_at_once)
                      (local "/images/rpi.img") sd_card idle in
  let written :=
    flashImageToDrive (example_env (Resolved false) writes_well)
                      (local "/images/rpi.img") sd_card idle in
  (In (ShowError (mkUserError "Invalid image" (MsgInvalidImage notes_txt)))
      (events (trace_of invalid))
   /\ count is_scanner_stop (trace_of invalid) = 1
   /\ count is_scanner_start (trace_of invalid) = 0)
  /\ (In (WriterFlash "/images/rpi.img" sd_card) (events (trace_of thrown))
      /\ count is_scanner_stop (trace_of thrown) = 1
      /\ count is_scanner_start (trace_of thrown) = 0)
  /\ (count is_scanner_stop (trace_of written) = 1
      /\ count is_scanner_start (trace_of written) = 1).
Proof.
  intros invalid thrown written.
  split; [| split ].
  - split; [vm_compute; find_event|]. split; reflexivity.
  - split; [vm_compute; find_event|]. split; reflexivity.
  - split; reflexivity.
Qed.

(** ** Supported extensions *)

Lemma includes_In (x : string) (l : list string) :
  includes x l = true <-> In x l.
Proof.
  unfold includes. rewrite existsb_exists. split.
  - intros (y & Hy & Heq). apply String.eqb_eq in Heq. subst y. exact Hy.
  - intros Hx. exists x. split; [exact Hx | apply String.eqb_refl].
Qed.

Lemma includes_not_In (x : string) (l : list string) :
  includes x l = false <-> ~ In x l.
Proof.
  rewrite <- includes_In. destruct (includes x l); split; congruence.
Qed.

(** The main extensions are the registered ones among img, iso and zip,
    in that order. *)
Lemma mainSupportedExtensions_filter (allExtensions : list string) :
  mainSupportedExtensions allExtensions =
    filter (fun x => includes x allExtensions) ["img"; "iso"; "zip"].
Proof.
  unfold mainSupportedExtensions, intersection. simpl.
  destruct (includes "img" allExtensions); simpl;
    destruct (includes "iso" allExtensions); simpl;
    destruct (includes "zip" allExtensions); reflexivity.
Qed.

(** X1. An extension is a main supported extension iff it is one of
    img, iso and zip and is registered; none is listed twice, whatever
    the registry repeats. *)
Theorem mainSupportedExtensions_members (allExtensions : list string) (x : string) :
  (In x (mainSupportedExtensions allExtensions) <->
     (x = "img" \/ x = "iso" \/ x = "zip") /\ In x allExtensions)
  /\ NoDup (mainSupportedExtensions allExtensions).
Proof.
  rewrite mainSupportedExtensions_filter. split.
  - rewrite filter_In, includes_In. simpl. split.
    + intros [[H | [H | [H | []]]] Hall]; subst x; auto.
    + intros [[H | [H | H]] Hall]; subst x; auto.
  - apply NoDup_filter.
    repeat constructor; simpl; intros H;
      repeat (destruct H as [H | H]; [discriminate H|]); exact H.
Qed.

Lemma extraSupportedExtensions_In (allExtensions : list string) (x : string) :
  In x (extraSupportedExtensions allExtensions) <->
    In x allExtensions /\ ~ In x (mainSupportedExtensions allExtensions).
Proof.
  unfold extraSupportedExtensions, difference. split.
  - intros Hx.
    apply (Permutation_in x (Permutation_sym (StringSort.Permuted_sort _))) in Hx.
    apply filter_In in Hx. destruct Hx as [Hall Hnot].
    apply negb_true_iff, includes_not_In in Hnot. split; assumption.
  - intros [Hall Hnot].
    apply (Permutation_in x (StringSort.Permuted_sort _)).
    apply filter_In. split; [exact Hall|].
    apply negb_true_iff, includes_not_In. exact Hnot.
Qed.

(** X2. The main and the extra supported extensions split the registry:
    every registered extension is in one of the two lists, none is in
    both, and the two lists hold registered extensions only. *)
Theorem supported_extensions_partition (allExtensions : list string) (x : string) :
  (In x allExtensions <->
     In x (mainSupportedExtensions allExtensions)
     \/ In x (extraSupportedExtensions allExtensions))
  /\ ~ (In x (mainSupportedExtensions allExtensions)
        /\ In x (extraSupportedExtensions allExtensions)).
Proof.
  split.
  - rewrite extraSupportedExtensions_In. split.
    + intros Hall.
      destruct (includes x (mainSupportedExtensions allExtensions)) eqn:Hmain.
      * left. apply includes_In. exact Hmain.
      * right. split; [exact Hall | apply includes_not_In; exact Hmain].
    + intros [Hmain | [Hall _]]; [| exact Hall ].
      apply (mainSupportedExtensions_members allExtensions x). exact Hmain.
  - intros [Hmain Hextra].
    apply extraSupportedExtensions_In in Hextra. destruct Hextra as [_ Hnot].
    exact (Hnot Hmain).
Qed.

(** X3. The extra supported extensions are in ascending order, and they
    are the registered extensions that are not main ones, each as often
    as the registry lists it. *)
Theorem extraSupportedExtensions_sorted (allExtensions : list string) :
  Sorted (fun x y => String.leb x y = true) (extraSupportedExtensions allExtensions)
  /\ Permutation
       (filter (fun x => negb (includes x (mainSupportedExtensions allExtensions)))
               allExtensions)
       (extraSupportedExtensions allExtensions).
Proof.
  split.
  - exact (StringSort.Sorted_sort _).
  - exact (StringSort.Permuted_sort _).
Qed.

(** A registry as the image stream's handlers would give it. *)
Example supported_extensions_example :
  let registry := ["zip"; "etch"; "gz"; "bz2"; "xz"; "img"; "iso"; "dsk"; "hddimg";
                   "raw"; "dmg"; "sdcard"; "rpi-sdimg"] in
  mainSupportedExtensions registry = ["img"; "iso"; "zip"]
  /\ extraSupportedExtensions registry =
       ["bz2"; "dmg"; "dsk"; "etch"; "gz"; "hddimg"; "raw"; "rpi-sdimg"; "sdcard"; "xz"].
Proof. split; reflexivity. Qed.

(** ** More on the image selector *)

Ltac selectImage_cases env image :=
  unfold selectImage, riskMessage, WarningModalService_display,
         reselectImage, removeImageSelection;
  destruct (isSupportedImage env (path image)) eqn:?Hsupported;
  [ destruct (looksLikeWindowsImage env (path image)) eqn:?Hwin;
    [| destruct (hasMBR image) eqn:?Hmbr ] |];
  run;
  try (destruct (warningAnswer env _) as [[|] | ? | ] eqn:?Hanswer); simpl.

(** X4. [selectImage] commits iff it resolves. It never touches the
    flash state or the custom-image override. When its promise resolves,
    the candidate is supported, [setImage] was called exactly once and
    the selected image has the candidate's path; when it rejects, the
    candidate is unsupported, the rejection carries the candidate and
    Selection State is as before; when it stays pending, nothing was
    committed and the selected image is as before or cleared. *)
Theorem selectImage_commits_iff_resolves
    (env : Collaborators) (image : Image) (s : Store) :
  let r := selectImage env image s in
  flash (store_of r) = flash s
  /\ imagePath (store_of r) = imagePath s
  /\ sel_custom (selection (store_of r)) = sel_custom (selection s)
  /\ match result_of r with
     | Resolved res =>
         isSupportedImage env (path image) = true
         /\ count is_set_image (trace_of r) = 1
         /\ option_map path (sel_image (selection (store_of r))) = Some (path image)
         /\ path res = path image
     | Rejected reason =>
         isSupportedImage env (path image) = false
         /\ reason = RImage image
         /\ count is_set_image (trace_of r) = 0
         /\ selection (store_of r) = selection s
     | Pending =>
         isSupportedImage env (path image) = true
         /\ count is_set_image (trace_of r) = 0
         /\ (sel_image (selection (store_of r)) = sel_image (selection s)
             \/ sel_image (selection (store_of r)) = None)
     end.
Proof.
  intros r. subst r.
  selectImage_cases env image; repeat split; auto.
Qed.

(** X5. The descriptor [selectImage] resolves with is the candidate with
    its [logo] and [bmap] turned into strict booleans and nothing else
    changed. Selecting that descriptor again prompts the user again, so
    it need not resolve; but whatever the collaborators and the state of
    the second call, if it resolves it resolves with the very same
    descriptor, and it does resolve when the descriptor is still
    supported and the user answers "Continue" to any warning shown. *)
Theorem selectImage_normalises_once
    (env : Collaborators) (image res : Image) (s : Store) :
  result_of (selectImage env image s) = Resolved res ->
  res = mkImage (path image) (size image) (hasMBR image)
                (JBool (Boolean (logo image))) (JBool (Boolean (bmap image)))
  /\ (forall env' s' res',
        result_of (selectImage env' res s') = Resolved res' -> res' = res)
  /\ (forall env' s',
        isSupportedImage env' (path res) = true ->
        (forall m, warningAnswer env' m = Resolved false) ->
        result_of (selectImage env' res s') = Resolved res).
Proof.
  intros Hres.
  assert (Hshape : forall env0 image0 res0 s0,
             result_of (selectImage env0 image0 s0) = Resolved res0 ->
             res0 = mkImage (path image0) (size image0) (hasMBR image0)
                      (JBool (Boolean (logo image0)))
                      (JBool (Boolean (bmap image0)))).
  { clear. intros env0 image0 res0 s0.
    selectImage_cases env0 image0; intros Hres;
      try discriminate Hres; injection Hres as <-; reflexivity. }
  pose proof (Hshape env image res s Hres) as Hres_shape.
  split; [exact Hres_shape|]. split.
  - intros env' s' res' Hres'.
    rewrite (Hshape env' res res' s' Hres'). rewrite Hres_shape. reflexivity.
  - intros env' s' Hsupported Hcontinue.
    rewrite Hres_shape in *. clear Hres Hres_shape.
    unfold selectImage, riskMessage, WarningModalService_display.
    cbn [path hasMBR] in *. rewrite Hsupported.
    destruct (looksLikeWindowsImage env' (path image));
      [| destruct (hasMBR image) ];
      run; rewrite ?Hcontinue; reflexivity.
Qed.

Lemma selectImage_normalises_once_witness :
  let env := example_env (Resolved false) writes_well in
  let res := mkImage "/images/raw.img" 1000000000 false (JBool true) (JBool false) in
  res = mkImage (path raw_img) (size raw_img) (hasMBR raw_img)
                (JBool (Boolean (logo raw_img))) (JBool (Boolean (bmap raw_img)))
  /\ (forall env' s' res',
        result_of (selectImage env' res s') = Resolved res' -> res' = res)
  /\ (forall env' s',
        isSupportedImage env' (path res) = true ->
        (forall m, warningAnswer env' m = Resolved false) ->
        result_of (selectImage env' res s') = Resolved res).
Proof.
  intros env res.
  apply (selectImage_normalises_once env raw_img res idle).
  reflexivity.
Defined.

(** The second prompt is the user's to answer: the same descriptor,
    selected again with "Change" as the answer, stays pending and clears
    the selection. *)
Example reselecting_may_stay_pending :
  let first := example_env (Resolved false) writes_well in
  let second := example_env (Resolved true) writes_well in
  let r1 := selectImage first raw_img idle in
  exists res,
    result_of r1 = Resolved res
    /\ result_of (selectImage second res (store_of r1)) = Pending
    /\ sel_image (selection (store_of (selectImage second res (store_of r1)))) = None.
Proof. eexists. repeat split. Qed.

(** X6. When the warning prompt itself fails, [selectImage] reports the
    failure to the exception reporter and does nothing else: nothing is
    committed or cleared, and the promise it returned never settles. *)
Theorem selectImage_reports_prompt_failure
    (env : Collaborators) (image : Image) (m : WarningMessage) (e : JsError)
    (s : Store) :
  isSupportedImage env (path image) = true ->
  result_of (riskMessage env image s) = Some m ->
  warningAnswer env m = Rejected e ->
  result_of (selectImage env image s) = Pending
  /\ store_of (selectImage env image s) = s
  /\ events (trace_of (selectImage env image s)) =
       [LogEvent (risk_event m) (PImage image);
        WarningDisplay "Change" "Continue" m;
        Report e].
Proof.
  intros Hsupported Hrisk Hanswer.
  rewrite riskMessage_run in Hrisk.
  unfold selectImage, riskMessage, WarningModalService_display.
  rewrite Hsupported.
  destruct (looksLikeWindowsImage env (path image)) eqn:Hwin;
    [| destruct (hasMBR image) eqn:Hmbr ];
    simpl in Hrisk; try discriminate;
    injection Hrisk as <-; run; rewrite Hanswer; simpl;
    repeat split; reflexivity.
Qed.

Lemma selectImage_reports_prompt_failure_witness :
  let e := mkError None "modal closed" in
  let env := example_env (Rejected e) writes_well in
  result_of (selectImage env windows_iso idle) = Pending
  /\ store_of (selectImage env windows_iso idle) = idle
  /\ events (trace_of (selectImage env windows_iso idle)) =
       [LogEvent (risk_event MsgLooksLikeWindowsImage) (PImage windows_iso);
        WarningDisplay "Change" "Continue" MsgLooksLikeWindowsImage;
        Report e].
Proof.
  intros e env.
  apply (selectImage_reports_prompt_failure env windows_iso
           MsgLooksLikeWindowsImage e idle); reflexivity.
Defined.

(** X7. [getImageBasename] changes nothing. It is the empty string when
    no image is selected, hence after [removeImageSelection] and after
    [reselectImage]; after a [selectImage] that resolved it is the base
    name of the candidate's path, and after one that rejected it is what
    it was before. *)
Theorem getImageBasename_follows_selection
    (env : Collaborators) (image : Image) (s : Store) :
  getImageBasename env s = (result_of (getImageBasename env s), s, [])
  /\ (sel_image (selection s) = None -> result_of (getImageBasename env s) = "")
  /\ result_of (getImageBasename env (store_of (removeImageSelection s))) = ""
  /\ result_of (getImageBasename env (store_of (reselectImage s))) = ""
  /\ (forall res, result_of (selectImage env image s) = Resolved res ->
        result_of (getImageBasename env (store_of (selectImage env image s))) =
          basename env (path image))
  /\ (forall reason, result_of (selectImage env image s) = Rejected reason ->
        result_of (getImageBasename env (store_of (selectImage env image s))) =
          result_of (getImageBasename env s)).
Proof.
  split; [| split; [| split; [| split; [| split ]]]].
  - unfold getImageBasename. run. destruct (sel_image (selection s)); reflexivity.
  - intros Hnone. unfold getImageBasename. run. rewrite Hnone. reflexivity.
  - reflexivity.
  - reflexivity.
  - intros res. selectImage_cases env image; intros Hres;
      try discriminate Hres; reflexivity.
  - intros reason. selectImage_cases env image; intros Hres;
      try discriminate Hres; reflexivity.
Qed.

Lemma getImageBasename_follows_selection_witness :
  let env := example_env (Resolved false) writes_well in
  result_of (getImageBasename env idle) = ""
  /\ result_of (getImageBasename env (store_of (selectImage env rpi_img idle))) = "rpi.img"
  /\ result_of (getImageBasename env
                  (store_of (selectImage env notes_txt
                               (store_of (selectImage env rpi_img idle))))) = "rpi.img".
Proof.
  intros env. split; [| split ].
  - destruct (getImageBasename_follows_selection env rpi_img idle)
      as (_ & Hnone & _).
    apply Hnone. reflexivity.
  - destruct (getImageBasename_follows_selection env rpi_img idle)
      as (_ & _ & _ & _ & Hresolved & _).
    rewrite (Hresolved _ eq_refl). reflexivity.
  - destruct (getImageBasename_follows_selection env notes_txt
                (store_of (selectImage env rpi_img idle)))
      as (_ & _ & _ & _ & _ & Hrejected).
    rewrite (Hrejected _ eq_refl). reflexivity.
Defined.

(** Selection by path never touches the custom-image override, and
    reports nothing unless the warning prompt fails, in which case its
    promise stays pending. *)
Lemma selectImageByPath_custom_and_reports
    (env : Collaborators) (p : string) (s : Store) :
  sel_custom (selection (store_of (selectImageByPath env p s))) =
    sel_custom (selection s)
  /\ (forall reason, result_of (selectImageByPath env p s) = Rejected reason ->
        reports (trace_of (selectImageByPath env p s)) = []
        /\ selection (store_of (selectImageByPath env p s)) = selection s).
Proof.
  unfold selectImageByPath.
  destruct (getImageMetadata env p) as [md | error | ].
  - selectImage_cases env md;
      (split; [reflexivity |
               intros reason H; try discriminate H; split; reflexivity]).
  - run. split; [reflexivity|]. intros reason _. split; reflexivity.
  - run. split; [reflexivity|]. intros reason H. discriminate H.
Qed.

(** A chosen file goes to the selection by path, on the state with the
    override dropped. *)
Lemma openImageSelector_chosen_run (env : Collaborators) (p : string) (s : Store) :
  (p =? "") = false ->
  openImageSelector env (Resolved (Some p)) s =
    (tt,
     store_of (selectImageByPath env p
                 (mkStore (flash s) (mkSelection (sel_image (selection s)) None)
                          (imagePath s))),
     mkStamped (LogEvent "Open image selector" PNone) (isFlashing (flash s))
     :: trace_of (selectImageByPath env p
                    (mkStore (flash s) (mkSelection (sel_image (selection s)) None)
                             (imagePath s)))).
Proof.
  intros Hp. unfold openImageSelector, selectionState_clearCustomSelection.
  rewrite Hp. unfold bind, emit, modify_selection, ret. simpl.
  destruct (selectImageByPath env p _) as [[u s1] t1]. simpl.
  rewrite app_nil_r. reflexivity.
Qed.

(** X8. [openImageSelector] drops the custom-image override as soon as
    it is called, whatever the dialog then does, and never touches the
    flash state. If the dialog is closed without a file it only logs
    that; if the dialog fails it reports the failure; in both cases the
    selected image stays as it was and no metadata is read. *)
Theorem openImageSelector_clears_custom
    (env : Collaborators) (dialog : Promise (option string) JsError) (s : Store) :
  let r := openImageSelector env dialog s in
  sel_custom (selection (store_of r)) = None
  /\ flash (store_of r) = flash s
  /\ (dialog = Resolved None \/ dialog = Resolved (Some "") ->
        events (trace_of r) =
          [LogEvent "Open image selector" PNone; LogEvent "Image selector closed" PNone]
        /\ sel_image (selection (store_of r)) = sel_image (selection s))
  /\ (forall e, dialog = Rejected e ->
        events (trace_of r) = [LogEvent "Open image selector" PNone; Report e]
        /\ sel_image (selection (store_of r)) = sel_image (selection s)).
Proof.
  intros r. subst r.
  destruct dialog as [[p |] | e | ].
  - destruct (p =? "") eqn:Hempty.
    + apply String.eqb_eq in Hempty. subst p.
      unfold openImageSelector, selectionState_clearCustomSelection. run.
      repeat split; try reflexivity; intros; try discriminate.
    + rewrite (openImageSelector_chosen_run env p s Hempty).
      unfold store_of at 1 3 5, trace_of at 1. cbn [fst snd].
      match goal with
      | |- context [selectImageByPath env p ?s0] =>
          pose proof (selectImageByPath_custom_and_reports env p s0) as [Hcustom _];
          pose proof (selectImageByPath_spec env p s0) as [Hflash _]
      end.
      split; [exact Hcustom|]. split; [exact Hflash|].
      split.
      * intros [H | H]; [discriminate H|].
        injection H as ->. discriminate Hempty.
      * intros e H. discriminate H.
  - unfold openImageSelector, selectionState_clearCustomSelection. run.
    repeat split; try reflexivity; intros; discriminate.
  - unfold openImageSelector, selectionState_clearCustomSelection. run.
    repeat split; try reflexivity; intros;
      try match goal with
          | H : _ \/ _ |- _ => destruct H; discriminate
          | H : Rejected _ = Rejected _ |- _ => injection H as <-; reflexivity
          end.
  - unfold openImageSelector, selectionState_clearCustomSelection. run.
    repeat split; try reflexivity; intros;
      try match goal with
          | H : _ \/ _ |- _ => destruct H; discriminate
          | H : Pending = Rejected _ |- _ => discriminate H
          end.
Qed.

Lemma openImageSelector_clears_custom_witness :
  let env := example_env (Resolved false) writes_well in
  let s := store_of (selectCustomImage "drideOS" idle) in
  let r := openImageSelector env (Resolved None) s in
  sel_custom (selection s) =
    Some ("https://s3.amazonaws.com/dride/latest.zip", "drideOS")
  /\ sel_custom (selection (store_of r)) = None
  /\ events (trace_of r) =
       [LogEvent "Open image selector" PNone; LogEvent "Image selector closed" PNone].
Proof.
  intros env s r.
  destruct (openImageSelector_clears_custom env (Resolved None) s)
    as (Hcustom & _ & Hclosed & _).
  split; [reflexivity|]. split; [exact Hcustom|].
  apply Hclosed. left. reflexivity.
Defined.

(** X9. When the dialog yields a file, [openImageSelector] runs the
    selection by path on the state with the override dropped and adds
    nothing to it but its opening log entry. A selection that rejects,
    because the file cannot be read or is not a supported image, is
    shown to the user by the selection itself and is not passed to the
    exception reporter. *)
Theorem openImageSelector_selects_chosen_file
    (env : Collaborators) (p : string) (s : Store) :
  p <> "" ->
  let s0 := mkStore (flash s) (mkSelection (sel_image (selection s)) None)
                    (imagePath s) in
  let r := openImageSelector env (Resolved (Some p)) s in
  store_of r = store_of (selectImageByPath env p s0)
  /\ events (trace_of r) =
       LogEvent "Open image selector" PNone
       :: events (trace_of (selectImageByPath env p s0))
  /\ (forall reason, result_of (selectImageByPath env p s0) = Rejected reason ->
        reports (trace_of r) = []
        /\ sel_image (selection (store_of r)) = sel_image (selection s)
        /\ exists err, In (ShowError err) (events (trace_of r))).
Proof.
  intros Hp s0 r. subst r.
  apply String.eqb_neq in Hp.
  rewrite (openImageSelector_chosen_run env p s Hp). fold s0.
  destruct (selectImageByPath_custom_and_reports env p s0) as [_ Hrejected].
  assert (Hshown : forall reason,
             result_of (selectImageByPath env p s0) = Rejected reason ->
             exists err,
               In (ShowError err) (events (trace_of (selectImageByPath env p s0)))).
  { clear. intros reason. unfold selectImageByPath.
    destruct (getImageMetadata env p) as [md | error | ].
    - selectImage_cases env md; intros H; try discriminate H;
        eexists; right; left; reflexivity.
    - run. intros _. eexists. right. left. reflexivity.
    - run. intros H. discriminate H. }
  unfold store_of, trace_of, result_of in *. cbn [fst snd].
  split; [reflexivity|]. split; [reflexivity|].
  intros reason Hreason.
  destruct (Hrejected reason Hreason) as [Hnone Hsame].
  split; [| split ].
  - change (reports (?a :: ?l)) with (reports [a] ++ reports l).
    rewrite Hnone. reflexivity.
  - rewrite Hsame. reflexivity.
  - destruct (Hshown reason Hreason) as [err Herr].
    exists err. right. exact Herr.
Qed.

Lemma openImageSelector_selects_chosen_file_witness :
  let env := example_env (Resolved false) writes_well in
  let r := openImageSelector env (Resolved (Some "/home/me/notes.txt")) idle in
  reports (trace_of r) = []
  /\ sel_image (selection (store_of r)) = None
  /\ exists err, In (ShowError err) (events (trace_of r)).
Proof.
  intros env r.
  destruct (openImageSelector_selects_chosen_file env "/home/me/notes.txt" idle)
    as (_ & _ & Hrejected); [discriminate|].
  apply (Hrejected (RImage notes_txt)). reflexivity.
Defined.

(** ** More on the download *)

Lemma published_download_events (l : list Tick) (tail : list Event) :
  (forall e, In e tail -> match e with SetProgressState _ => False | _ => True end) ->
  flat_map (fun e => match e with SetProgressState p => [p] | _ => [] end)
           (map (fun t => SetProgressState (progressOfTick t)) l ++ tail)
  = map progressOfTick l.
Proof.
  intros Htail. rewrite flat_map_app.
  assert (Hnil : flat_map (fun e => match e with
                                    | SetProgressState p => [p]
                                    | _ => []
                                    end) tail = []).
  { apply flat_map_none. intros e He. specialize (Htail e He).
    destruct e; try reflexivity. destruct Htail. }
  rewrite Hnil, app_nil_r.
  induction l as [| t l IH]; [reflexivity|]. simpl. rewrite IH. reflexivity.
Qed.

(** X10. For an image without a local path, [downloadImageIfNeeded]
    raises the flashing flag, requests the source and pipes it into
    [os.zip], and publishes one progress record per tick, in order, each
    of type 'download', with the tick's percentage, a non-zero eta and a
    defined speed; the last one published is the current progress. If
    the stream ends, the flag is lowered and the promise resolves with
    ['./os.zip'] whatever the source; if it does not, the promise never
    settles and the flag stays raised. Selection State is untouched. *)
Theorem downloadImageIfNeeded_remote_stages
    (env : Collaborators) (image : ImageSource) (s : Store) :
  is_local image = false ->
  let r := downloadImageIfNeeded env image s in
  let tr := transfer env image in
  result_of r = (if ends tr then Resolved "./os.zip" else Pending)
  /\ isFlashing (flash (store_of r)) = negb (ends tr)
  /\ selection (store_of r) = selection s
  /\ events (trace_of r) =
       SetFlashingFlag :: Request image :: PipeToFile "os.zip"
       :: map (fun t => SetProgressState (progressOfTick t)) (ticks tr)
       ++ (if ends tr then [UnsetFlashingFlag (mkResults false true)] else [])
  /\ published (trace_of r) = map progressOfTick (ticks tr)
  /\ map percentage (published (trace_of r)) = map tick_percentage (ticks tr)
  /\ Forall (fun p => type p = Some "download" /\ eta p <> 0%Z
                      /\ exists v, speed p = Some v)
            (published (trace_of r))
  /\ current (flash (store_of r)) =
       last (map progressOfTick (ticks tr)) (current (flash s)).
Proof.
  intros Hremote r tr. subst r tr.
  rewrite (downloadImageIfNeeded_remote env image s Hremote), fetchImage_run.
  unfold result_of, store_of, trace_of. cbn [fst snd flash selection isFlashing current].
  assert (Hevents :
    events (mkStamped SetFlashingFlag (isFlashing (flash s))
            :: stamp true
                 ([Request image; PipeToFile "os.zip"]
                  ++ map (fun t => SetProgressState (progressOfTick t))
                         (ticks (transfer env image))
                  ++ (if ends (transfer env image)
                      then [UnsetFlashingFlag (mkResults false true)] else [])))
    = SetFlashingFlag :: Request image :: PipeToFile "os.zip"
      :: map (fun t => SetProgressState (progressOfTick t))
             (ticks (transfer env image))
      ++ (if ends (transfer env image)
          then [UnsetFlashingFlag (mkResults false true)] else [])).
  { change (events (?x :: ?l)) with (ev x :: events l).
    rewrite events_stamp. reflexivity. }
  assert (Hpublished :
    published (mkStamped SetFlashingFlag (isFlashing (flash s))
               :: stamp true
                    ([Request image; PipeToFile "os.zip"]
                     ++ map (fun t => SetProgressState (progressOfTick t))
                            (ticks (transfer env image))
                     ++ (if ends (transfer env image)
                         then [UnsetFlashingFlag (mkResults false true)] else [])))
    = map progressOfTick (ticks (transfer env image))).
  { unfold published. rewrite Hevents. cbn [flat_map app].
    apply published_download_events.
    intros e He. destruct (ends (transfer env image)); [| destruct He ].
    destruct He as [<- | []]. exact I. }
  rewrite Hevents, Hpublished.
  repeat split.
  - rewrite map_map. reflexivity.
  - apply Forall_map. apply Forall_forall. intros t _.
    unfold progressOfTick. cbn [type eta speed].
    split; [reflexivity|]. split; [| eexists; reflexivity ].
    destruct (tick_remaining t) as [rem|]; simpl; [| discriminate ].
    destruct (rem =? 0)%Z eqn:Hrem; simpl; [discriminate|].
    apply Z.eqb_neq. exact Hrem.
Qed.

Lemma downloadImageIfNeeded_remote_stages_witness :
  let env := example_env (Resolved false) writes_well in
  let r := downloadImageIfNeeded env remote idle in
  result_of r = Resolved "./os.zip"
  /\ isFlashing (flash (store_of r)) = false
  /\ map percentage (published (trace_of r)) = [0; 10; 45; 100]%Z
  /\ map eta (published (trace_of r)) = [99; 30; 12; 99]%Z.
Proof.
  intros env r.
  destruct (downloadImageIfNeeded_remote_stages env remote idle eq_refl)
    as (Hresult & Hflag & _ & _ & Hpublished & Hpercent & _).
  split; [exact Hresult|]. split; [exact Hflag|]. split; [exact Hpercent|].
  subst r. rewrite Hpublished. reflexivity.
Defined.

(** X12. While [isDownloading()] and [isFlashing()] hold, the label
    right after a download tick is "Starting..." for a tick at 0 percent
    without speed, "Finishing..." for a tick at 100 percent, and
    "{percentage}% Downloading..." for any other tick; it is never
    "Unmounting..." or a validation label. *)
Theorem label_after_download_tick
    (env : Collaborators) (tick : Tick) (s : Store) :
  isDownloading (flash s) = true ->
  isFlashing (flash s) = true ->
  result_of (getProgressButtonLabel env (store_of (onProgress tick s))) =
    if (tick_percentage tick =? 0)%Z && negb (truthy_num (tick_speed tick))
    then "Starting..."
    else if (tick_percentage tick =? 100)%Z then "Finishing..."
    else (show_number (tick_percentage tick) ++ "% Downloading...")%string.
Proof.
  intros Hdownloading Hflashing.
  unfold onProgress, getProgressButtonLabel, progressButtonLabel. run.
  rewrite Hdownloading, Hflashing. simpl.
  unfold PERCENTAGE_MINIMUM, PERCENTAGE_MAXIMUM.
  assert (Hspeed : (match tick_speed tick with
                    | Some z => negb (z =? 0)%Z
                    | None => false
                    end) = truthy_num (tick_speed tick)) by reflexivity.
  destruct (tick_speed tick) as [v|]; simpl.
  - destruct (v =? 0)%Z eqn:Hv; simpl.
    + destruct (tick_percentage tick =? 0)%Z; simpl; [reflexivity|].
      destruct (tick_percentage tick =? 100)%Z; reflexivity.
    + rewrite Hv. simpl. rewrite andb_false_r.
      destruct (tick_percentage tick =? 100)%Z; reflexivity.
  - destruct (tick_percentage tick =? 0)%Z; simpl; [reflexivity|].
    destruct (tick_percentage tick =? 100)%Z; reflexivity.
Qed.

Lemma label_after_download_tick_witness :
  let env := example_env (Resolved false) writes_well in
  let s := in_progress true true (mkProgress 0 0 None None) in
  result_of (getProgressButtonLabel env
               (store_of (onProgress (mkTick 45 (Some 12%Z) (Some 4096%Z)) s)))
  = "45% Downloading...".
Proof.
  intros env s.
  rewrite (label_after_download_tick env (mkTick 45 (Some 12%Z) (Some 4096%Z)) s
             eq_refl eq_refl).
  reflexivity.
Defined.

(** ** More on whole sessions *)

Section SessionExtras.

Context (env : Collaborators).

(** A selection by path that resolves has read metadata of a supported
    image and committed it. *)
Lemma selectImageByPath_resolved (p : string) (s : Store) (res : Image) :
  result_of (selectImageByPath env p s) = Resolved res ->
  isSupportedImage env (path res) = true
  /\ (exists img, path img = path res
        /\ getImageMetadata env p = Resolved img
        /\ In (SetImage img) (events (trace_of (selectImageByPath env p s))))
  /\ option_map path (sel_image (selection (store_of (selectImageByPath env p s)))) =
       Some (path res).
Proof.
  unfold selectImageByPath.
  destruct (getImageMetadata env p) as [md | error | ];
    [| run; discriminate | run; discriminate ].
  selectImage_cases env md; intros Hres; try discriminate Hres;
    injection Hres as <-; simpl;
    (split; [assumption |
     split; [exists md; split; [reflexivity | split; [reflexivity | find_event]]
            | reflexivity]]).
Qed.

(** A preparation that resolves has committed a supported image. *)
Lemma prepare_resolved (image : ImageSource) (s : Store) (res : Image) :
  result_of (prepare env image s) = Resolved res ->
  isSupportedImage env (path res) = true
  /\ (exists img, path img = path res
        /\ In (SetImage img) (events (trace_of (prepare env image s))))
  /\ option_map path (sel_image (selection (store_of (prepare env image s)))) =
       Some (path res).
Proof.
  unfold prepare, bind.
  destruct (downloadImageIfNeeded env image s) as [[d s1] t1].
  destruct d as [retPath | r | ]; [| discriminate | discriminate ].
  pose proof (selectImageByPath_resolved retPath s1 res) as Hsel.
  destruct (selectImageByPath env retPath s1) as [[r s2] t2].
  unfold result_of, store_of, trace_of in *. cbn [fst snd] in *.
  intros Hres. destruct (Hsel Hres) as (Hsupported & (img & Hpath & _ & Hin) & Hstore).
  split; [exact Hsupported|]. split; [| exact Hstore ].
  exists img. split; [exact Hpath|].
  rewrite events_app. apply in_or_app. right. exact Hin.
Qed.

(** The handlers of a settled writer end with the scanner's restart. *)
Lemma handler_events_end (p : string) (drive : Drive) (outcome : WriterOutcome)
    (wasCancelled : bool) :
  outcome = WResolves \/ (exists e, outcome = WRejects e) ->
  exists l, handler_events env p drive outcome wasCancelled = l ++ [ScannerStart].
Proof.
  intros [-> | [e ->]]; unfold handler_events.
  - eexists. reflexivity.
  - eexists. rewrite !app_assoc. reflexivity.
Qed.

Lemma handler_events_filter_none (f : Event -> bool) (p : string) (drive : Drive)
    (outcome : WriterOutcome) (wasCancelled : bool) :
  (forall e, handler_event e = true -> f e = false) ->
  filter f (handler_events env p drive outcome wasCancelled) = [].
Proof.
  intros Hf. rewrite filter_keep. apply flat_map_none. intros e He.
  unfold keep. rewrite Hf; [reflexivity|].
  pose proof (handler_events_class env p drive outcome wasCancelled) as Hcls.
  rewrite Forall_forall in Hcls. exact (Hcls e He).
Qed.

(** The events of a session that reached the writer, cut at the
    handlers. *)
Lemma reached_events (image : ImageSource) (drive : Drive) (s : Store) (p : string) :
  In (WriterFlash p drive)
     (events (trace_of (flashImageToDrive env image drive s))) ->
  exists before,
    events (trace_of (flashImageToDrive env image drive s)) =
      ScannerStop :: before
      ++ handler_events env p drive (w_outcome (writer env p drive))
           (lastCancelled (flash (store_of (flashImageToDrive env image drive s)))).
Proof.
  intros Hin.
  destruct (writer_invoked_inv env image drive s p drive Hin)
    as (Hidle & res & Hres & -> & _).
  rewrite (flashImageToDrive_run env image drive s Hidle).
  unfold trace_of at 1, store_of at 1. cbn [fst snd].
  unfold session_trace, session_store. rewrite Hres. cbv zeta.
  change (events (?x :: ?l)) with (ev x :: events l).
  rewrite events_app.
  change (events (?x :: ?l)) with (ev x :: events l).
  rewrite events_app, events_stamp. cbn [ev].
  exists (events (trace_of (prepare env image s))
          ++ WriterFlash (path res) drive
             :: events (trace_of (forEach writerAction
                                    (w_actions (writer env (path res) drive))
                                    (store_of (prepare env image s))))).
  rewrite <- app_assoc. reflexivity.
Qed.

End SessionExtras.

Lemma resolved_invokes_writer
    (env : Collaborators) (image : ImageSource) (drive : Drive) (s : Store)
    (res : Image) :
  isFlashing (flash s) = false ->
  result_of (prepare env image s) = Resolved res ->
  In (WriterFlash (path res) drive)
     (events (trace_of (flashImageToDrive env image drive s))).
Proof.
  intros Hidle Hres.
  rewrite (flashImageToDrive_run env image drive s Hidle).
  unfold trace_of at 1. cbn [snd]. unfold session_trace. rewrite Hres.
  change (events (?x :: ?l)) with (ev x :: events l).
  right. rewrite events_app. apply in_or_app. right. left. reflexivity.
Qed.

(** A session whose writer settled ends with the scanner's restart. *)
Lemma settled_session_ends_with_restart
    (env : Collaborators) (image : ImageSource) (drive : Drive) (s : Store)
    (p : string) :
  In (WriterFlash p drive)
     (events (trace_of (flashImageToDrive env image drive s))) ->
  w_outcome (writer env p drive) = WResolves
  \/ (exists e, w_outcome (writer env p drive) = WRejects e) ->
  last (events (trace_of (flashImageToDrive env image drive s))) ScannerStop =
    ScannerStart.
Proof.
  intros Hin Hsettled.
  destruct (reached_events env image drive s p Hin) as [before Hevents].
  destruct (handler_events_end env p drive (w_outcome (writer env p drive))
              (lastCancelled
                 (flash (store_of (flashImageToDrive env image drive s))))
              Hsettled) as [l Hl].
  rewrite Hevents, Hl, app_comm_cons, app_assoc. apply last_last.
Qed.

(** A session that reached the writer began by stopping the scanner. *)
Lemma reached_session_starts_with_stop
    (env : Collaborators) (image : ImageSource) (drive : Drive) (s : Store)
    (p : string) :
  In (WriterFlash p drive)
     (events (trace_of (flashImageToDrive env image drive s))) ->
  hd_error (events (trace_of (flashImageToDrive env image drive s))) =
    Some ScannerStop.
Proof.
  intros Hin.
  destruct (reached_events env image drive s p Hin) as [before Hevents].
  rewrite Hevents. reflexivity.
Qed.

(** C3, as the code has it. For every session that reached the writer
    and was marked cancelled when the writer's promise settled: if the
    writer resolves, neither the success nor the failure notification is
    sent and the success view is not entered; if the writer rejects, the
    failure notification is sent all the same, once. Either way
    [driveScanner.stop()] is called once and is the session's first
    call, and [driveScanner.start()] is called once and is the session's
    last call, so the scanner is restarted after it was stopped. *)
Theorem cancelled_session_notifications
    (env : Collaborators) (image : ImageSource) (drive : Drive) (s : Store)
    (p : string) :
  let r := flashImageToDrive env image drive s in
  In (WriterFlash p drive) (events (trace_of r)) ->
  lastCancelled (flash (store_of r)) = true ->
  (w_outcome (writer env p drive) = WResolves ->
     filter is_notify (events (trace_of r)) = []
     /\ count is_state_go (trace_of r) = 0
     /\ count is_scanner_stop (trace_of r) = 1
     /\ count is_scanner_start (trace_of r) = 1
     /\ hd_error (events (trace_of r)) = Some ScannerStop
     /\ last (events (trace_of r)) ScannerStop = ScannerStart)
  /\ (forall error, w_outcome (writer env p drive) = WRejects error ->
        filter is_notify (events (trace_of r)) =
          [Notify "Oops! Looks like the flash failed."
                  (MsgFlashFailure (basename env p) drive) iconPath]
        /\ count is_state_go (trace_of r) = 0
        /\ count is_scanner_stop (trace_of r) = 1
        /\ count is_scanner_start (trace_of r) = 1
        /\ hd_error (events (trace_of r)) = Some ScannerStop
        /\ last (events (trace_of r)) ScannerStop = ScannerStart).
Proof.
  intros r Hin Hcancelled. subst r.
  pose proof (reached_session_starts_with_stop env image drive s p Hin) as Hfirst.
  pose proof (settled_session_ends_with_restart env image drive s p Hin) as Hlast.
  unfold count.
  rewrite (reached_filter env is_notify image drive s p Hin) by by_event_cases.
  rewrite (reached_filter env is_state_go image drive s p Hin) by by_event_cases.
  rewrite (reached_filter env is_scanner_stop image drive s p Hin) by by_event_cases.
  rewrite (reached_filter env is_scanner_start image drive s p Hin) by by_event_cases.
  rewrite Hcancelled.
  split.
  - intros Hresolves. rewrite Hresolves. simpl.
    repeat split; try reflexivity; [exact Hfirst|].
    apply Hlast. left. exact Hresolves.
  - intros error Hrejects. rewrite Hrejects. unfold handler_events.
    rewrite !filter_app.
    rewrite !flash_error_events_filter by (intros; reflexivity).
    simpl. repeat split; try reflexivity; [exact Hfirst|].
    apply Hlast. right. exists error. exact Hrejects.
Qed.

Lemma cancelled_session_notifications_witness :
  let env := example_env (Resolved false) cancelled_then_resolves in
  let r := flashImageToDrive env (local "/images/rpi.img") sd_card idle in
  filter is_notify (events (trace_of r)) = []
  /\ count is_state_go (trace_of r) = 0
  /\ count is_scanner_stop (trace_of r) = 1
  /\ count is_scanner_start (trace_of r) = 1
  /\ hd_error (events (trace_of r)) = Some ScannerStop
  /\ last (events (trace_of r)) ScannerStop = ScannerStart.
Proof.
  intros env r.
  assert (Hin : In (WriterFlash "/images/rpi.img" sd_card) (events (trace_of r)))
    by (vm_compute; find_event).
  apply (proj1 (cancelled_session_notifications env (local "/images/rpi.img")
                  sd_card idle "/images/rpi.img" Hin eq_refl)).
  reflexivity.
Defined.

(** X13. For every session whose writer resolves without the session
    being marked cancelled: exactly one notification is sent, "Success!"
    with the base name of the written image and the drive; the UI goes
    to the 'success' state once; no flash-error modal is shown and
    nothing is reported; the scanner, stopped once, is restarted once,
    and that restart is the session's last call. *)
Theorem successful_session
    (env : Collaborators) (image : ImageSource) (drive : Drive) (s : Store)
    (p : string) :
  let r := flashImageToDrive env image drive s in
  In (WriterFlash p drive) (events (trace_of r)) ->
  w_outcome (writer env p drive) = WResolves ->
  lastCancelled (flash (store_of r)) = false ->
  filter is_notify (events (trace_of r)) =
    [Notify "Success!" (MsgFlashComplete (basename env p) drive) iconPath]
  /\ filter is_state_go (events (trace_of r)) = [StateGo "success"]
  /\ modal_messages (trace_of r) = []
  /\ reports (trace_of r) = []
  /\ count is_scanner_stop (trace_of r) = 1
  /\ count is_scanner_start (trace_of r) = 1
  /\ last (events (trace_of r)) ScannerStop = ScannerStart.
Proof.
  intros r Hin Hresolves Hnot. subst r. unfold count, modal_messages, reports.
  rewrite (reached_filter env is_notify image drive s p Hin) by by_event_cases.
  rewrite (reached_filter env is_state_go image drive s p Hin) by by_event_cases.
  rewrite (reached_filter env is_scanner_stop image drive s p Hin) by by_event_cases.
  rewrite (reached_filter env is_scanner_start image drive s p Hin) by by_event_cases.
  rewrite (reached_flat_map env modal_of image drive s p Hin) by by_event_cases.
  assert (Hreport := reached_flat_map env report_of image drive s p Hin).
  rewrite Hreport; [| | by_event_cases ].
  2: { intros e; destruct e; simpl; intros Hc Hr; try reflexivity;
       try discriminate Hc; exfalso; exact (Hr _ eq_refl). }
  rewrite Hresolves, Hnot. simpl.
  repeat split; try reflexivity.
  apply (settled_session_ends_with_restart env image drive s p Hin).
  left. exact Hresolves.
Qed.

Lemma successful_session_witness :
  let env := example_env (Resolved false) writes_well in
  let r := flashImageToDrive env remote sd_card idle in
  filter is_notify (events (trace_of r)) =
    [Notify "Success!" (MsgFlashComplete (basename env "./os.zip") sd_card) iconPath]
  /\ filter is_state_go (events (trace_of r)) = [StateGo "success"]
  /\ modal_messages (trace_of r) = []
  /\ reports (trace_of r) = []
  /\ count is_scanner_stop (trace_of r) = 1
  /\ count is_scanner_start (trace_of r) = 1
  /\ last (events (trace_of r)) ScannerStop = ScannerStart.
Proof.
  intros env r.
  assert (Hin : In (WriterFlash "./os.zip" sd_card) (events (trace_of r)))
    by (vm_compute; find_event).
  apply (successful_session env remote sd_card idle "./os.zip" Hin);
    reflexivity.
Defined.

(** X14. A session that passed the entry guard begins by stopping the
    drive scanner, stops it exactly once and restarts it at most once.
    It restarts it exactly when the writer was invoked and its promise
    resolved or rejected, and the restart is then the session's last
    call; in every other session the scanner is left stopped. *)
Theorem scanner_restarted_iff_writer_settles
    (env : Collaborators) (image : ImageSource) (drive : Drive) (s : Store) :
  isFlashing (flash s) = false ->
  let t := trace_of (flashImageToDrive env image drive s) in
  hd_error (events t) = Some ScannerStop
  /\ count is_scanner_stop t = 1
  /\ count is_scanner_start t <= 1
  /\ (count is_scanner_start t = 1 <->
        exists p, In (WriterFlash p drive) (events t)
                  /\ (w_outcome (writer env p drive) = WResolves
                      \/ exists e, w_outcome (writer env p drive) = WRejects e))
  /\ (count is_scanner_start t = 1 -> last (events t) ScannerStop = ScannerStart).
Proof.
  intros Hidle t.
  destruct (scanner_calls env image drive s Hidle) as [Hstop Hstart].
  fold t in Hstop, Hstart.
  assert (Hiff : count is_scanner_start t = 1 <->
            exists p, In (WriterFlash p drive) (events t)
                      /\ (w_outcome (writer env p drive) = WResolves
                          \/ exists e, w_outcome (writer env p drive) = WRejects e)).
  { split.
    - intros Hone. rewrite Hstart in Hone.
      destruct (result_of (prepare env image s)) as [res | r | ] eqn:Hres;
        try discriminate Hone.
      exists (path res). split.
      + exact (resolved_invokes_writer env image drive s res Hidle Hres).
      + destruct (w_outcome (writer env (path res) drive)) as [| e | e |];
          try discriminate Hone; [left; reflexivity | right; exists e; reflexivity].
    - intros (p & Hin & Hsettled).
      destruct (writer_invoked_inv env image drive s p drive Hin)
        as (_ & res & Hres & -> & _).
      rewrite Hstart, Hres.
      destruct Hsettled as [-> | [e ->]]; reflexivity. }
  split; [| split; [exact Hstop | split; [| split; [exact Hiff|] ]]].
  - subst t. rewrite (flashImageToDrive_run env image drive s Hidle). reflexivity.
  - rewrite Hstart.
    destruct (result_of (prepare env image s)) as [res | r | ]; try lia.
    destruct (w_outcome (writer env (path res) drive)); lia.
  - intros Hone. apply Hiff in Hone. destruct Hone as (p & Hin & Hsettled).
    exact (settled_session_ends_with_restart env image drive s p Hin Hsettled).
Qed.

Lemma scanner_restarted_iff_writer_settles_witness :
  let env := example_env (Resolved false) (fails_with (Some "EIO")) in
  let t := trace_of (flashImageToDrive env (local "/images/rpi.img") sd_card idle) in
  hd_error (events t) = Some ScannerStop
  /\ count is_scanner_stop t = 1
  /\ count is_scanner_start t <= 1
  /\ (count is_scanner_start t = 1 <->
        exists p, In (WriterFlash p sd_card) (events t)
                  /\ (w_outcome (writer env p sd_card) = WResolves
                      \/ exists e, w_outcome (writer env p sd_card) = WRejects e))
  /\ (count is_scanner_start t = 1 -> last (events t) ScannerStop = ScannerStart).
Proof.
  intros env t.
  apply (scanner_restarted_iff_writer_settles env (local "/images/rpi.img")
           sd_card idle).
  reflexivity.
Defined.

(** X15. The writer is invoked at most once in a session, with the
    drive the session was given and with the path of an image that
    passed [isSupportedImage] and was committed by [setImage] earlier in
    the same session: the call of [setImage] precedes the writer's
    invocation in the session's calls. That image is still the selected
    one when the session ends. *)
Theorem writer_only_on_committed_image
    (env : Collaborators) (image : ImageSource) (drive : Drive) (s : Store)
    (p : string) (d : Drive) :
  let r := flashImageToDrive env image drive s in
  In (WriterFlash p d) (events (trace_of r)) ->
  d = drive
  /\ isSupportedImage env p = true
  /\ (exists img before after,
        path img = p
        /\ events (trace_of r) = before ++ WriterFlash p drive :: after
        /\ In (SetImage img) before)
  /\ filter is_writer_flash (events (trace_of r)) = [WriterFlash p drive]
  /\ option_map path (sel_image (selection (store_of r))) = Some p.
Proof.
  intros r Hin. subst r.
  destruct (writer_invoked_inv env image drive s p d Hin)
    as (Hidle & res & Hres & -> & ->).
  destruct (prepare_resolved env image s res Hres)
    as (Hsupported & (img & Hpath & Hset) & Hselected).
  split; [reflexivity|]. split; [exact Hsupported|].
  split; [| split ].
  - exists img, (ScannerStop :: events (trace_of (prepare env image s))).
    rewrite (flashImageToDrive_run env image drive s Hidle).
    unfold trace_of at 1. cbn [snd]. unfold session_trace. rewrite Hres. cbv zeta.
    change (events (?x :: ?l)) with (ev x :: events l).
    rewrite events_app.
    change (events (?x :: ?l)) with (ev x :: events l).
    cbn [ev].
    eexists. split; [exact Hpath|]. split; [reflexivity|].
    right. exact Hset.
  - rewrite (reached_filter env is_writer_flash image drive s (path res) Hin)
      by by_event_cases.
    rewrite handler_events_filter_none by by_event_cases. reflexivity.
  - rewrite (flashImageToDrive_run env image drive s Hidle).
    unfold store_of at 1. cbn [fst snd]. unfold session_store. rewrite Hres.
    pose proof (forEach_writerAction_spec
                  (w_actions (writer env (path res) drive))
                  (store_of (prepare env image s))) as (Hsel & _).
    rewrite Hsel. exact Hselected.
Qed.

Lemma writer_only_on_committed_image_witness :
  let env := example_env (Resolved false) writes_well in
  let r := flashImageToDrive env (local "/images/rpi.img") sd_card idle in
  sd_card = sd_card
  /\ isSupportedImage env "/images/rpi.img" = true
  /\ (exists img before after,
        path img = "/images/rpi.img"
        /\ events (trace_of r) =
             before ++ WriterFlash "/images/rpi.img" sd_card :: after
        /\ In (SetImage img) before)
  /\ filter is_writer_flash (events (trace_of r)) =
       [WriterFlash "/images/rpi.img" sd_card]
  /\ option_map path (sel_image (selection (store_of r))) = Some "/images/rpi.img".
Proof.
  intros env r.
  apply (writer_only_on_committed_image env (local "/images/rpi.img") sd_card idle
           "/images/rpi.img" sd_card).
  vm_compute. find_event.
Defined.

(** X11. A download whose stream never reaches its end leaves the
    session stuck: the metadata is never read, the writer is never
    invoked, the scanner is never restarted, and [isFlashing] stays
    true, so that every later call of [flashImageToDrive] is refused by
    the entry guard and does nothing. *)
Theorem stalled_download_blocks_sessions
    (env : Collaborators) (image : ImageSource) (drive : Drive) (s : Store)
    (image' : ImageSource) (drive' : Drive) :
  isFlashing (flash s) = false ->
  is_local image = false ->
  ends (transfer env image) = false ->
  let r := flashImageToDrive env image drive s in
  isFlashing (flash (store_of r)) = true
  /\ count is_get_metadata (trace_of r) = 0
  /\ count is_writer_flash (trace_of r) = 0
  /\ count is_scanner_start (trace_of r) = 0
  /\ flashImageToDrive env image' drive' (store_of r) = (tt, store_of r, []).
Proof.
  intros Hidle Hremote Hstalled r.
  pose proof (prepare_spec env image s Hidle) as (Hflag & _ & Hresolved & _).
  rewrite Hremote, Hstalled in Hflag. simpl in Hflag.
  assert (Hpending : result_of (prepare env image s) = Pending).
  { unfold prepare, bind.
    rewrite (downloadImageIfNeeded_remote env image s Hremote), fetchImage_run.
    rewrite Hstalled. reflexivity. }
  assert (Hrun : r = (tt, store_of (prepare env image s),
                      mkStamped ScannerStop false :: trace_of (prepare env image s))).
  { subst r. rewrite (flashImageToDrive_run env image drive s Hidle).
    unfold session_store, session_trace. rewrite Hpending, app_nil_r. reflexivity. }
  assert (Htrace : trace_of (prepare env image s) =
                     mkStamped SetFlashingFlag false
                     :: stamp true
                          ([Request image; PipeToFile "os.zip"]
                           ++ map (fun t => SetProgressState (progressOfTick t))
                                  (ticks (transfer env image)))).
  { unfold prepare, bind.
    rewrite (downloadImageIfNeeded_remote env image s Hremote), fetchImage_run.
    rewrite Hstalled. unfold trace_of, ret. cbn [fst snd flash].
    rewrite Hidle, !app_nil_r. reflexivity. }
  assert (Hnone : forall f,
             f ScannerStop = false -> f SetFlashingFlag = false ->
             (forall i, f (Request i) = false) ->
             (forall x, f (PipeToFile x) = false) ->
             (forall x, f (SetProgressState x) = false) ->
             count f (trace_of r) = 0).
  { intros f H1 H2 H3 H4 H5. rewrite Hrun, Htrace.
    unfold trace_of. cbn [snd]. apply count_none. intros x Hx.
    destruct Hx as [<- | [<- | Hx]]; [exact H1 | exact H2 |].
    unfold stamp in Hx. apply in_map_iff in Hx. destruct Hx as (e & <- & He).
    cbn [ev]. destruct He as [<- | [<- | He]]; [apply H3 | apply H4 |].
    apply in_map_iff in He. destruct He as (t & <- & _). apply H5. }
  assert (Hstuck : isFlashing (flash (store_of r)) = true).
  { rewrite Hrun. exact Hflag. }
  split; [exact Hstuck|].
  split; [apply Hnone; intros; reflexivity|].
  split; [apply Hnone; intros; reflexivity|].
  split; [apply Hnone; intros; reflexivity|].
  exact (flashImageToDrive_guarded env image' drive' (store_of r) Hstuck).
Qed.

Lemma stalled_download_blocks_sessions_witness :
  let env := mkCollaborators example_isSupportedImage example_looksLikeWindowsImage
               example_basename example_getImageMetadata (fun _ => Resolved false)
               (fun _ => mkTransfer [mkTick 10 (Some 30%Z) (Some 2048%Z)] false)
               (fun _ _ => writes_well) true in
  let r := flashImageToDrive env remote sd_card idle in
  isFlashing (flash (store_of r)) = true
  /\ count is_get_metadata (trace_of r) = 0
  /\ count is_writer_flash (trace_of r) = 0
  /\ count is_scanner_start (trace_of r) = 0
  /\ flashImageToDrive env (local "/images/rpi.img") sd_card (store_of r) =
       (tt, store_of r, []).
Proof.
  intros env r.
  apply (stalled_download_blocks_sessions env remote sd_card idle
           (local "/images/rpi.img") sd_card); reflexivity.
Defined.

(** X16. A session on a local image whose metadata cannot be read shows
    the "Error opening image" dialog with the base name of the path and
    the reader's message, logs the exception and stops there: after the
    scanner's stop these are its only calls, so no flash notification is
    sent and the scanner is not restarted; flash state and Selection
    State are as before. *)
Theorem unreadable_image_session
    (env : Collaborators) (image : ImageSource) (drive : Drive) (s : Store)
    (p : string) (error : JsError) :
  isFlashing (flash s) = false ->
  src_path image = Some p ->
  p <> "" ->
  getImageMetadata env p = Rejected error ->
  events (trace_of (flashImageToDrive env image drive s)) =
    [ScannerStop;
     GetImageMetadata p;
     ShowError (mkUserError "Error opening image"
                  (MsgOpenImage (basename env p) (message error)));
     LogException error]
  /\ flash (store_of (flashImageToDrive env image drive s)) = flash s
  /\ selection (store_of (flashImageToDrive env image drive s)) = selection s.
Proof.
  intros Hidle Hpath Hp Hmeta.
  apply String.eqb_neq in Hp.
  unfold flashImageToDrive, downloadImageIfNeeded, selectImageByPath. run.
  rewrite Hidle. simpl. rewrite Hpath. simpl. rewrite Hp. simpl.
  rewrite Hmeta. simpl.
  repeat split; reflexivity.
Qed.

Lemma unreadable_image_session_witness :
  let env := example_env (Resolved false) writes_well in
  let error := mkError (Some "ENOENT") "no such file" in
  let r := flashImageToDrive env (local "/gone.img") sd_card idle in
  events (trace_of r) =
    [ScannerStop;
     GetImageMetadata "/gone.img";
     ShowError (mkUserError "Error opening image"
                  (MsgOpenImage (basename env "/gone.img") (message error)));
     LogException error]
  /\ flash (store_of r) = flash idle
  /\ selection (store_of r) = selection idle.
Proof.
  intros env error r.
  apply (unreadable_image_session env (local "/gone.img") sd_card idle "/gone.img" error);
    try reflexivity.
  discriminate.
Defined.
